(** * UAV deconfliction node: a shallow embedding of [two_d_decon_sys.py]

    The node [TurtleDeconflictionNode] tracks two turtles.  Each pose message
    runs a callback that stores the pose, publishes a boundary-avoiding
    velocity command for the turtle that moved, and then checks the distance
    between the two stored poses; below the collision threshold it publishes a
    stop command for turtle 1 and a forward command for turtle 2.

    Numbers are Python floats, that is IEEE 754 binary64 values: they are
    modelled with Rocq's primitive floats, whose operations are the same
    correctly rounded binary64 operations.  The one operation of the node that
    is not such an operation is [** 2]: CPython hands it to [pow] of the
    platform's C library, which need not be correctly rounded, so that
    function is a parameter of the development.  The callbacks mutate the
    fields of [self] and publish on two topics; they are modelled in a small
    monad that threads the fields, collects the published commands in order,
    and carries the exceptions Python's float operations can raise. *)

From Stdlib Require Import Bool List String ZArith Lia.
From Stdlib Require Import Floats.

Set Warnings "-inexact-float".
Import ListNotations.

Local Open Scope string_scope.
Local Open Scope float_scope.
Local Open Scope list_scope.

(** ** Messages *)

(** [turtlesim/msg/Pose]. *)
Record Pose : Set := mkPose {
  x : float;
  y : float;
  theta : float;
  linear_velocity : float;
  angular_velocity : float
}.

(** [geometry_msgs/msg/Vector3] and [geometry_msgs/msg/Twist]. *)
Record Vector3 : Set := mkVector3 { vx : float; vy : float; vz : float }.

Record Twist : Set := mkTwist { linear : Vector3; angular : Vector3 }.

(** [Twist()]: every component is [0.0]. *)
Definition Twist_new : Twist :=
  mkTwist (mkVector3 0.0 0.0 0.0) (mkVector3 0.0 0.0 0.0).

(** [cmd.linear.x = v] and [cmd.angular.z = v]. *)
Definition set_linear_x (v : float) (cmd : Twist) : Twist :=
  mkTwist (mkVector3 v (vy (linear cmd)) (vz (linear cmd))) (angular cmd).

Definition set_angular_z (v : float) (cmd : Twist) : Twist :=
  mkTwist (linear cmd) (mkVector3 (vx (angular cmd)) (vy (angular cmd)) v).

(** The two components of a command the controller ever sets. *)
Definition linear_speed (cmd : Twist) : float := vx (linear cmd).
Definition angular_speed (cmd : Twist) : float := vz (angular cmd).

(** ** The node *)

(** The two velocity publishers, on [/turtle1/cmd_vel] and [/turtle2/cmd_vel]. *)
Inductive Publisher : Set := turtle1_vel_pub | turtle2_vel_pub.

Definition Publisher_eqb (p q : Publisher) : bool :=
  match p, q with
  | turtle1_vel_pub, turtle1_vel_pub => true
  | turtle2_vel_pub, turtle2_vel_pub => true
  | _, _ => false
  end.

(** One published message: the publisher and the command. *)
Definition Command : Set := (Publisher * Twist)%type.

(** The instance fields the callbacks read and write.  A pose field is
    [None] until the first message for that turtle. *)
Record Node : Set := mkNode {
  previous_x_turtle1 : float;
  previous_y_turtle1 : float;
  previous_x_turtle2 : float;
  previous_y_turtle2 : float;
  turtle1_pose : option Pose;
  turtle2_pose : option Pose
}.

(** [__init__]: the fields as the constructor leaves them. *)
Definition init : Node := mkNode 0.0 0.0 0.0 0.0 None None.

(** ** Effects *)

(** The exceptions of the float operations the node uses. *)
Inductive exn : Set := OverflowError | ValueError.

Inductive result (A : Type) : Type :=
| Ok (a : A)
| Raise (e : exn).
Arguments Ok {A} a.
Arguments Raise {A} e.

(** What a call leaves behind: its result, the fields of [self] and the
    commands it published, oldest first. *)
Record Outcome (A : Type) : Type := mkOutcome {
  res : result A;
  final : Node;
  out : list Command
}.
Arguments mkOutcome {A} res final out.
Arguments res {A} o.
Arguments final {A} o.
Arguments out {A} o.

Definition M (A : Type) : Type := Node -> Outcome A.

Definition ret {A} (a : A) : M A := fun n => mkOutcome (Ok a) n [].

Definition bind {A B} (m : M A) (k : A -> M B) : M B :=
  fun n =>
    let o := m n in
    match res o with
    | Ok a => let o' := k a (final o) in
              mkOutcome (res o') (final o') (out o ++ out o')
    | Raise e => mkOutcome (Raise e) (final o) (out o)
    end.

Notation "a <- m ;; k" := (bind m (fun a => k))
  (at level 61, m at next level, right associativity).
Notation "m ;; k" := (bind m (fun _ => k))
  (at level 61, right associativity).

Definition get : M Node := fun n => mkOutcome (Ok n) n [].

Definition modify (f : Node -> Node) : M unit :=
  fun n => mkOutcome (Ok tt) (f n) [].

Definition publish (p : Publisher) (cmd : Twist) : M unit :=
  fun n => mkOutcome (Ok tt) n [(p, cmd)].

Definition lift {A} (r : result A) : M A :=
  fun n => mkOutcome r n [].

(** Field assignments. *)
Definition set_turtle1_pose (p : Pose) (n : Node) : Node :=
  mkNode (previous_x_turtle1 n) (previous_y_turtle1 n)
         (previous_x_turtle2 n) (previous_y_turtle2 n)
         (Some p) (turtle2_pose n).

Definition set_turtle2_pose (p : Pose) (n : Node) : Node :=
  mkNode (previous_x_turtle1 n) (previous_y_turtle1 n)
         (previous_x_turtle2 n) (previous_y_turtle2 n)
         (turtle1_pose n) (Some p).

Definition set_previous_turtle1 (px py : float) (n : Node) : Node :=
  mkNode px py (previous_x_turtle2 n) (previous_y_turtle2 n)
         (turtle1_pose n) (turtle2_pose n).

Definition set_previous_turtle2 (px py : float) (n : Node) : Node :=
  mkNode (previous_x_turtle1 n) (previous_y_turtle1 n) px py
         (turtle1_pose n) (turtle2_pose n).

(** ** Python float operations *)

(** [a > b] on floats. *)
Definition gtb (a b : float) : bool := b <? a.
Notation "a >? b" := (gtb a b) (at level 70, no associativity) : float_scope.

(** [math.sqrt(v)]: the rounded square root; [ValueError] when the root of a
    number is NaN, that is for a negative [v]. *)
Definition math_sqrt (v : float) : result float :=
  let r := sqrt v in
  if is_nan r && negb (is_nan v) then Raise ValueError else Ok r.

Definition result_bind {A B} (r : result A) (k : A -> result B) : result B :=
  match r with
  | Ok a => k a
  | Raise e => Raise e
  end.

(** ** The C library *)

(** A C library whose [pow] is correctly rounded: the library at which the
    development is evaluated on concrete poses. *)
Definition rounded_square (v : float) : float := v * v.

Section WithLibm.

(** [pow(v, 2.0)] of the platform's C library.  The library is not part of
    the repository, and its result can differ from the correctly rounded
    square in the last bit. *)
Variable libm_pow2 : float -> float.

(** [v ** 2], as [float.__pow__] computes it with the exponent [2.0]: a NaN
    base is returned as it is; an infinite base gives [fabs(v)]; a zero base
    gives [0.0]; a negative base is replaced by its absolute value, the
    exponent being an even integer; a base of [1.0] gives [1.0]; any other
    base goes to [pow] of the C library.  An infinite result of [pow] is the
    range error that CPython raises as [OverflowError]; the range error of a
    result that underflows to zero is cleared. *)
Definition pow2 (v : float) : result float :=
  if is_nan v then Ok v
  else if is_infinity v then Ok (abs v)
  else if v =? 0.0 then Ok 0.0
  else
    let iv := abs v in
    if iv =? 1.0 then Ok 1.0
    else
      let ix := libm_pow2 iv in
      if is_infinity ix then Raise OverflowError else Ok ix.

(** ** The callbacks *)

(** Lines 75-81 of [move_turtle]: the command for a pose. *)
Definition boundary_cmd (pose : Pose) : Twist :=
  let cmd := Twist_new in
  if (x pose >? 9.0) || (x pose <? 2.0) || (y pose >? 9.0) || (y pose <? 2.0)
  then set_angular_z 0.9 (set_linear_x 1.0 cmd)
  else set_angular_z 0.0 (set_linear_x 2.0 cmd).

(** [move_turtle(turtle_name, pose)]. *)
Definition move_turtle (turtle_name : string) (pose : Pose) : M unit :=
  let cmd := boundary_cmd pose in
  if String.eqb turtle_name "turtle1" then
    modify (set_previous_turtle1 (x pose) (y pose)) ;;
    publish turtle1_vel_pub cmd
  else if String.eqb turtle_name "turtle2" then
    modify (set_previous_turtle2 (x pose) (y pose)) ;;
    publish turtle2_vel_pub cmd
  else ret tt.

(** [avoid_collision()]. *)
Definition stop_cmd : Twist := set_linear_x 0.0 Twist_new.
Definition move_cmd : Twist := set_linear_x 2.0 Twist_new.

Definition avoid_collision : M unit :=
  publish turtle1_vel_pub stop_cmd ;;
  publish turtle2_vel_pub move_cmd.

(** The distance expression of [check_collision], evaluated left to right. *)
Definition distance (a b : Pose) : result float :=
  result_bind (pow2 (x a - x b)) (fun dx2 =>
  result_bind (pow2 (y a - y b)) (fun dy2 =>
  math_sqrt (dx2 + dy2))).

(** The collision threshold, the literal [1.0] of [check_collision]. *)
Definition COLLISION_THRESHOLD : float := 1.0.

(** [check_collision()] with the threshold as an argument.  A stored [Pose]
    message is truthy and [None] is not, so the first test is that both
    poses are stored.  The warning the logger prints before
    [avoid_collision] is not a command and is left out. *)
Definition check_collision_at (threshold : float) : M unit :=
  n <- get ;;
  match turtle1_pose n, turtle2_pose n with
  | Some p1, Some p2 =>
      d <- lift (distance p1 p2) ;;
      if d <? threshold then avoid_collision else ret tt
  | _, _ => ret tt
  end.

Definition check_collision : M unit := check_collision_at COLLISION_THRESHOLD.

(** [pose_callback_turtle1(pose)] and [pose_callback_turtle2(pose)]. *)
Definition pose_callback_turtle1 (pose : Pose) : M unit :=
  modify (set_turtle1_pose pose) ;;
  move_turtle "turtle1" pose ;;
  check_collision.

Definition pose_callback_turtle2 (pose : Pose) : M unit :=
  modify (set_turtle2_pose pose) ;;
  move_turtle "turtle2" pose ;;
  check_collision.

(** ** Runs *)

(** A pose message on [/turtle1/pose] or [/turtle2/pose]. *)
Inductive Update : Set :=
| Pose1 (pose : Pose)
| Pose2 (pose : Pose).

Definition deliver (u : Update) : M unit :=
  match u with
  | Pose1 pose => pose_callback_turtle1 pose
  | Pose2 pose => pose_callback_turtle2 pose
  end.

(** [rclpy.spin]: the callbacks run one after the other; an exception that
    leaves a callback ends the run. *)
Fixpoint spin (us : list Update) : M unit :=
  match us with
  | [] => ret tt
  | u :: us' => deliver u ;; spin us'
  end.

(** ** Vocabulary of the properties *)

(** The commands of the two branches of [move_turtle]. *)
Definition turn_cmd : Twist :=
  mkTwist (mkVector3 1.0 0.0 0.0) (mkVector3 0.0 0.0 0.9).
Definition cruise_cmd : Twist :=
  mkTwist (mkVector3 2.0 0.0 0.0) (mkVector3 0.0 0.0 0.0).

(** The turtle an update is about: its pose, its publisher, and the node
    once the callback has stored the pose (lines 63 and 69). *)
Definition update_pose (u : Update) : Pose :=
  match u with Pose1 pose => pose | Pose2 pose => pose end.

Definition update_publisher (u : Update) : Publisher :=
  match u with Pose1 _ => turtle1_vel_pub | Pose2 _ => turtle2_vel_pub end.

Definition record_pose (u : Update) (n : Node) : Node :=
  match u with
  | Pose1 pose => set_turtle1_pose pose n
  | Pose2 pose => set_turtle2_pose pose n
  end.

(** The node as [move_turtle] leaves it in a callback for [u]. *)
Definition moved (u : Update) (n : Node) : Node :=
  match u with
  | Pose1 pose => set_previous_turtle1 (x pose) (y pose) (set_turtle1_pose pose n)
  | Pose2 pose => set_previous_turtle2 (x pose) (y pose) (set_turtle2_pose pose n)
  end.

(** The stored pose of the turtle a publisher commands. *)
Definition pose_of (p : Publisher) (n : Node) : option Pose :=
  match p with
  | turtle1_vel_pub => turtle1_pose n
  | turtle2_vel_pub => turtle2_pose n
  end.

(** Two nodes that store the same poses; the previous position fields are
    free. *)
Definition same_poses (n1 n2 : Node) : Prop :=
  turtle1_pose n1 = turtle1_pose n2 /\ turtle2_pose n1 = turtle2_pose n2.

(** The two tests of [check_collision] as one predicate on the stored poses:
    both poses are known and their distance is computed and below the
    threshold. *)
Definition conflict_at (threshold : float) (n : Node) : bool :=
  match turtle1_pose n, turtle2_pose n with
  | Some p1, Some p2 =>
      match distance p1 p2 with
      | Ok d => d <? threshold
      | Raise _ => false
      end
  | _, _ => false
  end.

Definition conflict (n : Node) : bool := conflict_at COLLISION_THRESHOLD n.

(** What [avoid_collision] publishes. *)
Definition override : list Command :=
  [(turtle1_vel_pub, stop_cmd); (turtle2_vel_pub, move_cmd)].

(** A pose at a position, heading and velocities zero. *)
Definition at_xy (px py : float) : Pose := mkPose px py 0.0 0.0 0.0.

(** Scenario 2 of the specification: turtle 1 at (5, 5), turtle 2 at
    (5.5, 5.5). *)
Definition scenario2 : Node :=
  set_turtle2_pose (at_xy 5.5 5.5) (set_turtle1_pose (at_xy 5.0 5.0) init).

(** The initial node with other previous position fields. *)
Definition init_elsewhere : Node := mkNode 7.0 3.0 (-1.0) 4.5 None None.

(** The margin as the specification words it, bounds included. *)
Definition spec_on_or_outside_margin (pose : Pose) : bool :=
  (9.0 <=? x pose) || (x pose <=? 2.0) || (9.0 <=? y pose) || (y pose <=? 2.0).

(** ** Vocabulary of the further properties *)

(** Classes of binary64 values, read on their specification: zero or a
    finite number; NaN or a value that is not negative. *)
Definition SF_finite (s : spec_float) : bool :=
  match s with
  | S754_zero _ | S754_finite _ _ _ => true
  | S754_infinity _ | S754_nan => false
  end.

Definition SF_nonneg (s : spec_float) : bool :=
  match s with
  | S754_nan | S754_zero _ => true
  | S754_infinity sx | S754_finite sx _ _ => negb sx
  end.

(** The pose of the last update in [us] for the turtle of publisher [p]. *)
Fixpoint latest (p : Publisher) (us : list Update) : option Pose :=
  match us with
  | [] => None
  | u :: us' =>
      match latest p us' with
      | Some pose => Some pose
      | None =>
          if Publisher_eqb (update_publisher u) p
          then Some (update_pose u) else None
      end
  end.

(** The previous position fields of a turtle agree with its stored pose:
    its x and y, or [0.0] twice while no pose is stored. *)
Definition position_matches (px py : float) (pose : option Pose) : Prop :=
  match pose with
  | Some p => px = x p /\ py = y p
  | None => px = 0.0 /\ py = 0.0
  end.

Definition previous_matches (n : Node) : Prop :=
  position_matches (previous_x_turtle1 n) (previous_y_turtle1 n) (turtle1_pose n)
  /\ position_matches (previous_x_turtle2 n) (previous_y_turtle2 n) (turtle2_pose n).

(** The commands the node has: cruise and turn for either turtle, the stop
    for turtle 1 only. *)
Definition known_command (c : Command) : Prop :=
  snd c = cruise_cmd \/ snd c = turn_cmd \/ c = (turtle1_vel_pub, stop_cmd).

(** Zero, or a finite value with an exponent of [E] at most. *)
Definition SF_exponent_le (E : Z) (s : spec_float) : Prop :=
  match s with
  | S754_zero _ => True
  | S754_finite _ _ e => (e <= E)%Z
  | S754_infinity _ | S754_nan => False
  end.

(** The fields of [turtlesim/msg/Pose] are float32 on the wire: every value
    a message carries is NaN, infinite, or of magnitude below 2^128. *)
Definition float32_range (v : float) : bool :=
  negb (is_finite v) || (abs v <=? 0x1p128).

Definition pose_in_range (pose : Pose) : bool :=
  float32_range (x pose) && float32_range (y pose).

Definition update_in_range (u : Update) : bool :=
  pose_in_range (update_pose u).

Definition node_in_range (n : Node) : bool :=
  match turtle1_pose n with Some p => pose_in_range p | None => true end
  && match turtle2_pose n with Some p => pose_in_range p | None => true end.

(** ** Order facts on binary64 *)

Section FloatOrder.

Lemma SFcompare_antisym (a b : spec_float) :
  SFcompare b a = option_map CompOpp (SFcompare a b).
Proof.
  destruct a as [sa| sa | | sa ma ea], b as [sb | sb | | sb mb eb];
    cbn [SFcompare option_map CompOpp];
    try reflexivity;
    try (destruct sa; reflexivity);
    try (destruct sb; reflexivity);
    try (destruct sa, sb; reflexivity).
  destruct sa, sb; cbn [CompOpp]; try reflexivity;
    rewrite (Z.compare_antisym ea eb);
    destruct (ea ?= eb)%Z; cbn [CompOpp]; try reflexivity;
    rewrite (Pos.compare_cont_antisym ma mb Eq); cbn [CompOpp];
    try rewrite CompOpp_involutive; reflexivity.
Qed.

Variables a b : float.

Lemma ltb_compare : (a <? b) = true <-> SFcompare (Prim2SF a) (Prim2SF b) = Some Lt.
Proof.
  rewrite ltb_spec. unfold SFltb.
  destruct (SFcompare (Prim2SF a) (Prim2SF b)) as [[ | | ]|];
    split; congruence.
Qed.

Lemma gtb_compare : (a >? b) = true <-> SFcompare (Prim2SF a) (Prim2SF b) = Some Gt.
Proof.
  unfold gtb. rewrite ltb_spec. unfold SFltb.
  rewrite (SFcompare_antisym (Prim2SF a) (Prim2SF b)).
  destruct (SFcompare (Prim2SF a) (Prim2SF b)) as [[ | | ]|];
    cbn; split; congruence.
Qed.


Lemma leb_compare :
  (a <=? b) = true <->
  SFcompare (Prim2SF a) (Prim2SF b) = Some Lt \/
  SFcompare (Prim2SF a) (Prim2SF b) = Some Eq.
Proof.
  rewrite leb_spec. unfold SFleb.
  destruct (SFcompare (Prim2SF a) (Prim2SF b)) as [[ | | ]|];
    split; intros H; try discriminate H;
    try (destruct H as [H | H]; discriminate H);
    try (left; reflexivity); try (right; reflexivity); reflexivity.
Qed.

Lemma leb_not_gtb : (a <=? b) = true -> (a >? b) = false.
Proof.
  intros H. apply leb_compare in H.
  destruct (a >? b) eqn:G; [ | reflexivity ].
  apply gtb_compare in G. destruct H; congruence.
Qed.

Lemma ltb_leb : (a <? b) = true -> (a <=? b) = true.
Proof. intros H. apply leb_compare. left. now apply ltb_compare. Qed.


End FloatOrder.

Lemma geb_not_ltb (a b : float) : (b <=? a) = true -> (a <? b) = false.
Proof. exact (leb_not_gtb b a). Qed.

Lemma ltb_not_gtb (a b : float) : (a <? b) = true -> (a >? b) = false.
Proof. intros H. apply leb_not_gtb. now apply ltb_leb. Qed.

(** Two floats that a comparison tells apart are different. *)
Lemma float_neq (a b : float) : (a =? b) = false -> (b =? b) = true -> a <> b.
Proof. intros H1 H2 E. rewrite E in H1. congruence. Qed.

(** ** Binary64 arithmetic on its specification *)

Lemma Prim2SF_nan : Prim2SF nan = S754_nan. Proof. reflexivity. Qed.
Lemma Prim2SF_inf : Prim2SF infinity = S754_infinity false. Proof. reflexivity. Qed.
Lemma Prim2SF_zero : Prim2SF 0 = S754_zero false. Proof. reflexivity. Qed.

Lemma SFcompare_refl (s : spec_float) : s <> S754_nan -> SFcompare s s = Some Eq.
Proof.
  destruct s as [[|]|[|]| |[|] m e]; cbn; try reflexivity; try congruence; intros _.
  - rewrite Z.compare_refl. now rewrite Pos.compare_cont_refl.
  - rewrite Z.compare_refl. now rewrite Pos.compare_cont_refl.
Qed.

Lemma is_nan_SF (f : float) : is_nan f = true <-> Prim2SF f = S754_nan.
Proof.
  unfold is_nan. rewrite eqb_spec. unfold SFeqb. split.
  - intros H. destruct (Prim2SF f) eqn:E; try reflexivity;
    rewrite SFcompare_refl in H by congruence; discriminate.
  - intros ->. reflexivity.
Qed.

Lemma is_nan_eq (f : float) : is_nan f = true <-> f = nan.
Proof.
  rewrite is_nan_SF. split.
  - intros H. apply Prim2SF_inj. now rewrite H.
  - now intros ->.
Qed.

Lemma is_finite_SF (f : float) : is_finite f = SF_finite (Prim2SF f).
Proof.
  unfold is_finite, is_nan, is_infinity.
  rewrite !eqb_spec, abs_spec. change (Prim2SF infinity) with (S754_infinity false).
  unfold SFeqb.
  destruct (Prim2SF f) as [[|]|[|]| |[|] m e] eqn:E; cbn; try reflexivity;
  rewrite Z.compare_refl, Pos.compare_cont_refl; reflexivity.
Qed.

Lemma binary_round_aux_opp (m : Z) (e : Z) (l : location) :
  binary_round_aux prec emax true m e l
  = SFopp (binary_round_aux prec emax false m e l).
Proof.
  unfold binary_round_aux.
  destruct (shr_fexp prec emax m e l) as [mrs' e'].
  destruct (shr_fexp prec emax _ e' loc_Exact) as [mrs'' e''].
  destruct (shr_m mrs''); try reflexivity.
  destruct (e'' <=? emax - prec)%Z; reflexivity.
Qed.

Lemma binary_normalize_opp (m e : Z) :
  m <> 0%Z ->
  binary_normalize prec emax (- m) e false
  = SFopp (binary_normalize prec emax m e false).
Proof.
  destruct m as [|p|p]; intros H; [ congruence | | ]; cbn [Z.opp binary_normalize];
    unfold binary_round;
    destruct (shl_align p e _) as [mz ez];
    rewrite binary_round_aux_opp; [ reflexivity | ].
  destruct (binary_round_aux prec emax false (Z.pos mz) ez loc_Exact) as [[|]|[|]| |[|] m' e'];
    reflexivity.
Qed.

(** [b - a] is the opposite of [a - b], or both are [+0]. *)
Lemma SFsub_swap (a b : spec_float) :
  SF64sub b a = SFopp (SF64sub a b)
  \/ (SF64sub a b = S754_zero false /\ SF64sub b a = S754_zero false).
Proof.
  unfold SF64sub.
  destruct a as [[|]|[|]| |sa ma ea], b as [[|]|[|]| |sb mb eb];
    cbn [SFsub SFopp negb]; try (left; reflexivity);
    try (right; split; reflexivity);
    try (left; rewrite negb_involutive; reflexivity).
  rewrite (Z.min_comm eb ea).
  set (A := cond_Zopp sa _). set (B := cond_Zopp sb _).
  destruct (Z.eq_dec (A - B) 0) as [E | E].
  - right. replace (B - A)%Z with 0%Z by lia. rewrite E. split; reflexivity.
  - left. replace (B - A)%Z with (- (A - B))%Z by lia.
    now apply binary_normalize_opp.
Qed.

Lemma SFmul_opp_opp (s : spec_float) :
  SF64mul (SFopp s) (SFopp s) = SF64mul s s.
Proof. destruct s as [[|]|[|]| |[|] m e]; reflexivity. Qed.

Lemma SF_finite_opp (s : spec_float) : SF_finite (SFopp s) = SF_finite s.
Proof. now destruct s. Qed.

Lemma binary_round_aux_nonneg (m e : Z) (l : location) :
  SF_nonneg (binary_round_aux prec emax false m e l) = true.
Proof.
  unfold binary_round_aux.
  destruct (shr_fexp prec emax m e l) as [mrs' e'].
  destruct (shr_fexp prec emax _ e' loc_Exact) as [mrs'' e''].
  destruct (shr_m mrs''); try reflexivity.
  destruct (e'' <=? emax - prec)%Z; reflexivity.
Qed.

Lemma SFmul_self_nonneg (s : spec_float) : SF_nonneg (SF64mul s s) = true.
Proof.
  destruct s as [[|]|[|]| |[|] m e]; try reflexivity;
    apply binary_round_aux_nonneg.
Qed.

Lemma SFadd_nonneg (a b : spec_float) :
  SF_nonneg a = true -> SF_nonneg b = true -> SF_nonneg (SF64add a b) = true.
Proof.
  destruct a as [sa|[|]| |[|] ma ea], b as [sb|[|]| |[|] mb eb];
    cbn [SF_nonneg negb]; try discriminate; intros _ _; try reflexivity.
  - destruct sa, sb; reflexivity.
  - unfold SF64add; cbn [SFadd cond_Zopp Z.add binary_normalize].
    unfold binary_round. destruct (shl_align _ _ _) as [mz ez].
    apply binary_round_aux_nonneg.
Qed.

Lemma shr_1_nonneg (mrs : shr_record) :
  (0 <= shr_m mrs)%Z -> (0 <= shr_m (shr_1 mrs))%Z.
Proof.
  destruct mrs as [m r s]. cbn [shr_m]. intros H.
  destruct m as [|[p|p|]|p]; cbn; lia.
Qed.

Lemma iter_pos_shr_1_nonneg (p : positive) :
  forall mrs, (0 <= shr_m mrs)%Z -> (0 <= shr_m (iter_pos shr_1 p mrs))%Z.
Proof.
  induction p as [p IH|p IH|]; intros mrs H; cbn [iter_pos].
  - apply IH, IH. now apply shr_1_nonneg.
  - now apply IH, IH.
  - now apply shr_1_nonneg.
Qed.

Lemma shr_fexp_nonneg (m e : Z) (l : location) :
  (0 <= m)%Z -> (0 <= shr_m (fst (shr_fexp prec emax m e l)))%Z.
Proof.
  intros H. unfold shr_fexp, shr.
  assert (H0 : (0 <= shr_m (shr_record_of_loc m l))%Z)
    by (destruct l as [|[| |]]; exact H).
  destruct (fexp prec emax (Zdigits2 m + e) - e)%Z; cbn [fst]; try exact H0.
  now apply iter_pos_shr_1_nonneg.
Qed.

Lemma round_nearest_even_nonneg (m : Z) (l : location) :
  (0 <= m)%Z -> (0 <= round_nearest_even m l)%Z.
Proof.
  intros H. destruct l as [|[| |]]; cbn [round_nearest_even]; try lia.
  destruct (Z.even m); lia.
Qed.

Lemma binary_round_aux_not_nan (s : bool) (m e : Z) (l : location) :
  (0 <= m)%Z -> binary_round_aux prec emax s m e l <> S754_nan.
Proof.
  intros H. unfold binary_round_aux.
  pose proof (shr_fexp_nonneg m e l H) as H1.
  destruct (shr_fexp prec emax m e l) as [mrs' e']. cbn [fst] in H1.
  pose proof (shr_fexp_nonneg _ e' loc_Exact
                (round_nearest_even_nonneg _ (loc_of_shr_record mrs') H1)) as H2.
  destruct (shr_fexp prec emax _ e' loc_Exact) as [mrs'' e'']. cbn [fst] in H2.
  destruct (shr_m mrs''); try discriminate; try lia.
  destruct (e'' <=? emax - prec)%Z; discriminate.
Qed.

Lemma SFsqrt_core_nonneg (m : positive) (e : Z) :
  (0 <= fst (fst (SFsqrt_core_binary prec emax (Z.pos m) e)))%Z.
Proof.
  unfold SFsqrt_core_binary.
  destruct (Z.sqrtrem _) as [q r] eqn:E. cbn [fst].
  apply (f_equal fst) in E. rewrite Z.sqrtrem_sqrt in E. cbn [fst] in E.
  subst q. apply Z.sqrt_nonneg.
Qed.

Lemma SFsqrt_not_nan (s : spec_float) :
  SF_nonneg s = true -> s <> S754_nan -> SF64sqrt s <> S754_nan.
Proof.
  destruct s as [sx|[|]| |[|] m e]; cbn [SF_nonneg negb];
    try discriminate; try congruence; intros _ _.
  unfold SF64sqrt; cbn [SFsqrt].
  pose proof (SFsqrt_core_nonneg m e) as H.
  destruct (SFsqrt_core_binary prec emax (Z.pos m) e) as [[mz ez] lz].
  now apply binary_round_aux_not_nan.
Qed.

Lemma SFsub_not_finite (a b : spec_float) :
  SF_finite a = false \/ SF_finite b = false ->
  SF_finite (SF64sub a b) = false.
Proof.
  destruct a as [sa|[|]| |sa ma ea], b as [sb|[|]| |sb mb eb];
    cbn [SF_finite]; intros [H | H]; try discriminate H; reflexivity.
Qed.

Lemma SFmul_self_not_finite (s : spec_float) :
  SF_finite s = false -> SF_finite (SF64mul s s) = false.
Proof. destruct s as [sx|sx| |sx m e]; try discriminate; reflexivity. Qed.

Lemma SFadd_not_finite (a b : spec_float) :
  SF_finite a = false \/ SF_finite b = false ->
  SF_finite (SF64add a b) = false.
Proof.
  destruct a as [sa|[|]| |sa ma ea], b as [sb|[|]| |sb mb eb];
    cbn [SF_finite]; intros [H | H]; try discriminate H; reflexivity.
Qed.

Lemma SFsqrt_not_finite (s : spec_float) :
  SF_finite s = false ->
  SF64sqrt s = S754_nan \/ SF64sqrt s = S754_infinity false.
Proof.
  destruct s as [sx|[|]| |sx m e]; try discriminate; intros _;
    [ left | right | left ]; reflexivity.
Qed.

Lemma SFsqrt_nonneg (s : spec_float) : SF_nonneg (SF64sqrt s) = true.
Proof.
  destruct s as [sx|[|]| |[|] m e]; try reflexivity.
  unfold SF64sqrt; cbn [SFsqrt].
  destruct (SFsqrt_core_binary prec emax (Z.pos m) e) as [[mz ez] lz].
  apply binary_round_aux_nonneg.
Qed.

Lemma SFltb_nan_or_infinity (d t : spec_float) :
  d = S754_nan \/ d = S754_infinity false -> SFltb d t = false.
Proof.
  intros [-> | ->]; [ reflexivity | ].
  destruct t as [st|[|]| |st mt et]; reflexivity.
Qed.

Lemma SFltb_nonneg_zero (d : spec_float) :
  SF_nonneg d = true -> SFltb d (S754_zero false) = false.
Proof. destruct d as [sd|[|]| |[|] m e]; try discriminate; reflexivity. Qed.

Lemma SFsub_diag (s : spec_float) :
  SF_finite s = true -> SF64sub s s = S754_zero false.
Proof.
  destruct s as [[|]|sx| |sx m e]; try discriminate; intros _; try reflexivity.
  unfold SF64sub; cbn [SFsub]. now rewrite Z.sub_diag.
Qed.

Lemma is_nan_bool (f : float) :
  is_nan f = match Prim2SF f with S754_nan => true | _ => false end.
Proof.
  unfold is_nan. rewrite eqb_spec. unfold SFeqb.
  destruct (Prim2SF f) as [s|s| |s m e] eqn:E; try reflexivity;
    rewrite SFcompare_refl by congruence; reflexivity.
Qed.

Lemma is_infinity_bool (f : float) :
  is_infinity f = match Prim2SF f with S754_infinity _ => true | _ => false end.
Proof.
  unfold is_infinity. rewrite eqb_spec, abs_spec.
  change (Prim2SF infinity) with (S754_infinity false). unfold SFeqb.
  destruct (Prim2SF f) as [s|s| |s m e]; reflexivity.
Qed.

Lemma eqb_zero_bool (f : float) :
  (f =? 0.0) = match Prim2SF f with S754_zero _ => true | _ => false end.
Proof.
  rewrite eqb_spec. change (Prim2SF 0.0) with (S754_zero false). unfold SFeqb.
  destruct (Prim2SF f) as [s|[|]| |[|] m e]; reflexivity.
Qed.

Lemma SFabs_opp (s : spec_float) : SFabs (SFopp s) = SFabs s.
Proof. now destruct s. Qed.

Lemma SFabs_nonneg (s : spec_float) : SF_nonneg (SFabs s) = true.
Proof. now destruct s. Qed.


(** [abs (v - u)] and [abs (u - v)] are the same float. *)
Lemma abs_sub_swap (u v : float) : abs (v - u) = abs (u - v).
Proof.
  apply Prim2SF_inj. rewrite !abs_spec, !sub_spec.
  destruct (SFsub_swap (Prim2SF u) (Prim2SF v)) as [H | [H1 H2]].
  - rewrite H. apply SFabs_opp.
  - now rewrite H1, H2.
Qed.

Lemma is_nan_abs (v : float) : is_nan (abs v) = is_nan v.
Proof. rewrite !is_nan_bool, abs_spec. now destruct (Prim2SF v). Qed.

Lemma eqb_zero_abs (v : float) : (abs v =? 0.0) = (v =? 0.0).
Proof. rewrite !eqb_zero_bool, abs_spec. now destruct (Prim2SF v). Qed.



Lemma ltb_zero_nonneg (f : float) :
  (f <? 0.0) = false -> SF_nonneg (Prim2SF f) = true.
Proof.
  rewrite ltb_spec. change (Prim2SF 0.0) with (S754_zero false).
  destruct (Prim2SF f) as [s|[|]| |[|] m e]; cbn; congruence.
Qed.

Lemma square_nonneg (v : float) : SF_nonneg (Prim2SF (v * v)) = true.
Proof. rewrite mul_spec. apply SFmul_self_nonneg. Qed.





(** ** Exponents of differences and squares *)

Section ExponentBounds.

Local Open Scope Z_scope.

Lemma digits2_pos_size (p : positive) : digits2_pos p = Pos.size p.
Proof. induction p; cbn; congruence. Qed.

(** [m < 2 ^ Zdigits2 m] for a positive mantissa. *)
Lemma Zdigits2_lt (p : positive) : Z.pos p < 2 ^ Zdigits2 (Z.pos p).
Proof.
  cbn [Zdigits2]. rewrite digits2_pos_size.
  pose proof (Pos.size_gt p) as H.
  apply Pos2Z.pos_lt_pos in H. now rewrite Pos2Z.inj_pow in H.
Qed.

Lemma Zdigits2_le (p : positive) : 2 ^ (Zdigits2 (Z.pos p) - 1) <= Z.pos p.
Proof.
  cbn [Zdigits2]. rewrite digits2_pos_size.
  pose proof (Pos.size_le p) as H.
  apply Pos2Z.pos_le_pos in H. rewrite Pos2Z.inj_pow in H.
  replace (Z.pos (Pos.size p)) with (Z.succ (Z.pos (Pos.size p) - 1)) in H by lia.
  rewrite Z.pow_succ_r in H by lia. lia.
Qed.

Lemma Zdigits2_nonneg (m : Z) : 0 <= Zdigits2 m.
Proof. destruct m; cbn; lia. Qed.

(** A mantissa below [2 ^ k] has at most [k] digits. *)
Lemma Zdigits2_bound (m k : Z) : 0 <= m < 2 ^ k -> 0 <= k -> Zdigits2 m <= k.
Proof.
  intros [H0 H] K. destruct m as [|p|p]; [ cbn; lia | | lia ].
  destruct (Z_le_gt_dec (Zdigits2 (Z.pos p)) k) as [L | G]; [ exact L | ].
  pose proof (Zdigits2_le p) as Hl.
  assert (2 ^ k <= 2 ^ (Zdigits2 (Z.pos p) - 1))
    by (apply Z.pow_le_mono_r; lia).
  lia.
Qed.

(** One shift to the right takes a digit away. *)
Lemma shr_1_digits (mrs : shr_record) (d : Z) :
  0 <= shr_m mrs -> Zdigits2 (shr_m mrs) <= Z.max 0 d ->
  Zdigits2 (shr_m (shr_1 mrs)) <= Z.max 0 (d - 1).
Proof.
  destruct mrs as [m r s]. cbn [shr_m]. intros H0 H.
  destruct m as [|[p|p|]|p]; cbn [shr_1 shr_m Zdigits2 digits2_pos] in *;
    try lia.
Qed.

Lemma iter_pos_shr_1_digits (p : positive) :
  forall mrs d,
    0 <= shr_m mrs -> Zdigits2 (shr_m mrs) <= Z.max 0 d ->
    Zdigits2 (shr_m (iter_pos shr_1 p mrs)) <= Z.max 0 (d - Z.pos p).
Proof.
  induction p as [p IH|p IH|]; intros mrs d H0 H; cbn [iter_pos].
  - replace (d - Z.pos p~1) with (d - 1 - Z.pos p - Z.pos p) by lia.
    apply IH; [ apply iter_pos_shr_1_nonneg; now apply shr_1_nonneg | ].
    apply IH; [ now apply shr_1_nonneg | ].
    now apply shr_1_digits.
  - replace (d - Z.pos p~0) with (d - Z.pos p - Z.pos p) by lia.
    apply IH; [ now apply iter_pos_shr_1_nonneg | ].
    now apply IH.
  - now apply shr_1_digits.
Qed.

Lemma fexp64_eq (e : Z) : fexp prec emax e = Z.max (e - 53) (-1074).
Proof. reflexivity. Qed.

(** After [shr_fexp] the mantissa has at most [prec] digits and the exponent
    is the larger of the old one and [fexp]. *)
Lemma shr_fexp_spec (m e : Z) (l : location) :
  0 <= m ->
  0 <= shr_m (fst (shr_fexp prec emax m e l))
  /\ Zdigits2 (shr_m (fst (shr_fexp prec emax m e l))) <= 53
  /\ snd (shr_fexp prec emax m e l) = Z.max e (fexp prec emax (Zdigits2 m + e)).
Proof.
  intros H. unfold shr_fexp, shr.
  assert (E : shr_m (shr_record_of_loc m l) = m)
    by (destruct l as [|[| |]]; reflexivity).
  pose proof (Zdigits2_nonneg m) as Dm.
  rewrite fexp64_eq.
  destruct (Z.max (Zdigits2 m + e - 53) (-1074) - e) as [|k|k] eqn:K;
    cbn [fst snd]; rewrite ?E.
  - repeat split; lia.
  - repeat split.
    + apply iter_pos_shr_1_nonneg. now rewrite E.
    + pose proof (iter_pos_shr_1_digits k (shr_record_of_loc m l)
                    (Zdigits2 m)) as B.
      rewrite E in B. specialize (B H ltac:(lia)). lia.
    + lia.
  - repeat split; lia.
Qed.

Lemma Zdigits2_succ (m : Z) : 0 <= m -> Zdigits2 (m + 1) <= Zdigits2 m + 1.
Proof.
  intros H. pose proof (Zdigits2_nonneg m) as D.
  apply Zdigits2_bound; [ | lia ].
  destruct m as [|p|p]; [ cbn; lia | | lia ].
  pose proof (Zdigits2_lt p) as L.
  rewrite Z.pow_add_r by lia. lia.
Qed.

Lemma round_nearest_even_spec (m : Z) (l : location) :
  0 <= m ->
  0 <= round_nearest_even m l
  /\ Zdigits2 (round_nearest_even m l) <= Zdigits2 m + 1.
Proof.
  intros H. pose proof (Zdigits2_succ m H) as S.
  destruct l as [|[| |]]; cbn [round_nearest_even]; try lia.
  destruct (Z.even m); lia.
Qed.

Lemma binary_round_aux_exponent (s : bool) (m e : Z) (l : location) (E : Z) :
  0 <= m ->
  Z.max e (fexp prec emax (Zdigits2 m + e)) + 1 <= E -> E <= 971 ->
  SF_exponent_le E (binary_round_aux prec emax s m e l).
Proof.
  intros H B HE. unfold binary_round_aux.
  destruct (shr_fexp_spec m e l H) as (N1 & D1 & E1).
  destruct (shr_fexp prec emax m e l) as [mrs' e']. cbn [fst snd] in *.
  destruct (round_nearest_even_spec _ (loc_of_shr_record mrs') N1) as (N2 & D2).
  destruct (shr_fexp_spec _ e' loc_Exact N2) as (N3 & D3 & E3).
  destruct (shr_fexp prec emax _ e' loc_Exact) as [mrs'' e''].
  cbn [fst snd] in *.
  rewrite fexp64_eq in *.
  assert (Le : e'' <= E) by lia.
  assert (Lb : (e'' <=? emax - prec) = true)
    by (apply Z.leb_le; change (emax - prec) with 971; lia).
  destruct (shr_m mrs''); [ exact I | | lia ].
  rewrite Lb. exact Le.
Qed.

(** A valid finite binary64 value has at most 53 digits and an exponent of
    -1074 at least. *)
Lemma valid_binary_digits (s : bool) (m : positive) (e : Z) :
  valid_binary (S754_finite s m e) = true ->
  Zdigits2 (Z.pos m) <= 53 /\ -1074 <= e.
Proof.
  cbn [valid_binary SpecFloat.valid_binary]. unfold bounded, canonical_mantissa.
  intros H. apply andb_prop in H as [H _]. apply Z.eqb_eq in H.
  rewrite fexp64_eq in H. cbn [Zdigits2]. lia.
Qed.

Lemma SFmul_self_no_overflow (s : spec_float) :
  valid_binary s = true -> SF_exponent_le 458 s ->
  SF_exponent_le 971 (SF64mul s s).
Proof.
  destruct s as [sx|sx| |sx m e]; cbn [SF_exponent_le]; try tauto.
  intros V L. destruct (valid_binary_digits _ _ _ V) as [D Lo].
  unfold SF64mul; cbn [SFmul].
  apply binary_round_aux_exponent; [ lia | | lia ].
  assert (B : Zdigits2 (Z.pos (m * m)) <= 106).
  { apply Zdigits2_bound; [ | lia ].
    pose proof (Zdigits2_lt m) as Lt.
    assert (P : 2 ^ Zdigits2 (Z.pos m) <= 2 ^ 53)
      by (apply Z.pow_le_mono_r; lia).
    change (2 ^ 106) with (2 ^ 53 * 2 ^ 53). rewrite Pos2Z.inj_mul. nia. }
  rewrite fexp64_eq. lia.
Qed.

Lemma digits2_pos_iter_xO (p d : positive) :
  Z.pos (digits2_pos (Pos.iter xO p d)) = Z.pos (digits2_pos p) + Z.pos d.
Proof.
  induction d as [|d IH] using Pos.peano_ind.
  - cbn. lia.
  - rewrite Pos.iter_succ. cbn [digits2_pos]. lia.
Qed.

Lemma binary_round_exponent (s : bool) (p : positive) (e E : Z) :
  Z.max e (fexp prec emax (Zdigits2 (Z.pos p) + e)) + 1 <= E -> E <= 971 ->
  SF_exponent_le E (binary_round prec emax s p e).
Proof.
  intros B HE. unfold binary_round, shl_align.
  change (Z.pos (digits2_pos p)) with (Zdigits2 (Z.pos p)).
  rewrite fexp64_eq in *.
  destruct (Z.max (Zdigits2 (Z.pos p) + e - 53) (-1074) - e) as [|d|d] eqn:K;
    apply binary_round_aux_exponent; try lia; rewrite fexp64_eq;
    cbn [Zdigits2] in *; try lia.
  rewrite digits2_pos_iter_xO. lia.
Qed.

(** The aligned mantissa of [shl_align] towards a smaller exponent. *)
Lemma shl_align_lt (m : positive) (e ez : Z) :
  ez <= e -> Zdigits2 (Z.pos m) <= 53 ->
  Z.pos (fst (shl_align m e ez)) < 2 ^ (53 + e - ez).
Proof.
  intros L D. unfold shl_align.
  assert (M : forall q : positive,
             Zdigits2 (Z.pos q) <= 53 + e - ez -> Z.pos q < 2 ^ (53 + e - ez)).
  { intros q Q. pose proof (Zdigits2_lt q) as Lt.
    assert (2 ^ Zdigits2 (Z.pos q) <= 2 ^ (53 + e - ez))
      by (apply Z.pow_le_mono_r; lia).
    lia. }
  destruct (ez - e) as [|d|d] eqn:K; cbn [fst]; apply M; cbn [Zdigits2] in *;
    try lia.
  rewrite digits2_pos_iter_xO. lia.
Qed.

Lemma SFsub_exponent (a b : spec_float) (E : Z) :
  valid_binary a = true -> valid_binary b = true ->
  SF_exponent_le E a -> SF_exponent_le E b -> E + 2 <= 971 ->
  SF_exponent_le (E + 2) (SF64sub a b).
Proof.
  destruct a as [sa|sa| |sa ma ea], b as [sb|sb| |sb mb eb];
    cbn [SF_exponent_le]; try tauto; intros Va Vb La Lb HE.
  - destruct sa, sb; exact I.
  - cbn. lia.
  - cbn. lia.
  - destruct (valid_binary_digits _ _ _ Va) as [Da Loa].
    destruct (valid_binary_digits _ _ _ Vb) as [Db Lob].
    unfold SF64sub; cbn [SFsub].
    pose proof (shl_align_lt ma ea (Z.min ea eb) ltac:(lia) Da) as A.
    pose proof (shl_align_lt mb eb (Z.min ea eb) ltac:(lia) Db) as B.
    set (ez := Z.min ea eb) in *.
    set (a' := Z.pos (fst (shl_align ma ea ez))) in *.
    set (b' := Z.pos (fst (shl_align mb eb ez))) in *.
    assert (Pa : 0 < a') by (subst a'; lia).
    assert (Pb : 0 < b') by (subst b'; lia).
    assert (P : 2 ^ (53 + ea - ez) <= 2 ^ (53 + Z.max ea eb - ez)
                /\ 2 ^ (53 + eb - ez) <= 2 ^ (53 + Z.max ea eb - ez))
      by (split; apply Z.pow_le_mono_r; lia).
    assert (S : 2 ^ (54 + Z.max ea eb - ez)
                = 2 * 2 ^ (53 + Z.max ea eb - ez)).
    { replace (54 + Z.max ea eb - ez) with (Z.succ (53 + Z.max ea eb - ez))
        by lia.
      apply Z.pow_succ_r. lia. }
    assert (Q : Z.abs (cond_Zopp sa a' - cond_Zopp sb b')
                < 2 ^ (54 + Z.max ea eb - ez))
      by (destruct sa, sb; cbn [cond_Zopp]; lia).
    destruct (cond_Zopp sa a' - cond_Zopp sb b') as [|p|p] eqn:R;
      cbn [binary_normalize]; [ exact I | | ];
      apply binary_round_exponent; try lia; rewrite fexp64_eq;
      (assert (Dp : Zdigits2 (Z.pos p) <= 54 + Z.max ea eb - ez)
         by (apply Zdigits2_bound; lia));
      lia.
Qed.

End ExponentBounds.

(** ** What is assumed of the C library *)

(** Three facts of [pow(v, 2.0)].  Each is a hypothesis of the statements
    that use it and of no other: the result is never below zero; it is not
    infinite for a base of magnitude 2^510 at most; and for a finite base it
    is the correctly rounded square or one of the two floats next to it, an
    error below one unit in the last place. *)
Hypothesis libm_pow2_not_negative :
  forall v, (libm_pow2 v <? 0.0) = false.

Hypothesis libm_pow2_finite :
  forall v, (abs v <=? 0x1p510) = true -> is_infinity (libm_pow2 v) = false.

Hypothesis libm_pow2_accurate :
  forall v, is_finite v = true ->
    libm_pow2 v = next_down (v * v)
    \/ libm_pow2 v = v * v
    \/ libm_pow2 v = next_up (v * v).

(** ** The square and the distance expression *)

(** [v ** 2] reads [v] through its absolute value. *)
Lemma pow2_ext (w w' : float) : abs w' = abs w -> pow2 w' = pow2 w.
Proof.
  intros E. unfold pow2, is_infinity.
  rewrite <- (is_nan_abs w'), <- (is_nan_abs w).
  rewrite <- (eqb_zero_abs w'), <- (eqb_zero_abs w). rewrite E.
  destruct (is_nan (abs w)) eqn:N; [ | reflexivity ].
  pose proof N as N'. rewrite <- E in N'.
  rewrite is_nan_abs in N, N'. apply is_nan_eq in N, N'. congruence.
Qed.

Lemma pow2_swap (u v : float) : pow2 (v - u) = pow2 (u - v).
Proof. apply pow2_ext, abs_sub_swap. Qed.

Lemma pow2_Raise (v : float) (e : exn) :
  pow2 v = Raise e -> e = OverflowError.
Proof.
  unfold pow2.
  destruct (is_nan v); [ discriminate | ].
  destruct (is_infinity v); [ discriminate | ].
  destruct (v =? 0.0); [ discriminate | ].
  destruct (abs v =? 1.0); [ discriminate | ].
  destruct (is_infinity (libm_pow2 (abs v)));
    [ now intros [= <-] | discriminate ].
Qed.

Lemma pow2_not_negative (v r : float) :
  pow2 v = Ok r -> SF_nonneg (Prim2SF r) = true.
Proof.
  unfold pow2.
  destruct (is_nan v) eqn:N.
  { intros [= <-]. apply is_nan_SF in N. now rewrite N. }
  destruct (is_infinity v).
  { intros [= <-]. rewrite abs_spec. apply SFabs_nonneg. }
  destruct (v =? 0.0); [ intros [= <-]; reflexivity | ].
  destruct (abs v =? 1.0); [ intros [= <-]; reflexivity | ].
  destruct (is_infinity (libm_pow2 (abs v))); [ discriminate | ].
  intros [= <-]. apply ltb_zero_nonneg, libm_pow2_not_negative.
Qed.

Lemma pow2_of_not_finite (v : float) :
  is_finite v = false ->
  exists r, pow2 v = Ok r /\ SF_finite (Prim2SF r) = false.
Proof.
  unfold pow2, is_finite. intros H. apply negb_false_iff in H.
  destruct (is_nan v) eqn:N.
  - exists v. split; [ reflexivity | ].
    apply is_nan_SF in N. now rewrite N.
  - cbn [orb] in H. rewrite H. exists (abs v). split; [ reflexivity | ].
    rewrite is_infinity_bool in H. rewrite abs_spec.
    destruct (Prim2SF v); try discriminate H; reflexivity.
Qed.


Lemma distance_eq (a b : Pose) :
  distance a b
  = match pow2 (x a - x b) with
    | Ok sx =>
        match pow2 (y a - y b) with
        | Ok sy => math_sqrt (sx + sy)
        | Raise e => Raise e
        end
    | Raise e => Raise e
    end.
Proof. reflexivity. Qed.

Lemma math_sqrt_Ok (v d : float) : math_sqrt v = Ok d -> d = sqrt v.
Proof.
  unfold math_sqrt. destruct (is_nan (sqrt v) && negb (is_nan v));
    [ discriminate | now intros [= <-] ].
Qed.


(** The float the distance expression returns when no operation raises. *)
Lemma distance_Ok (a b : Pose) (d : float) :
  distance a b = Ok d ->
  exists sx sy,
    pow2 (x a - x b) = Ok sx /\ pow2 (y a - y b) = Ok sy
    /\ d = sqrt (sx + sy).
Proof.
  rewrite distance_eq.
  destruct (pow2 (x a - x b)) as [sx|e]; [ | discriminate ].
  destruct (pow2 (y a - y b)) as [sy|e]; [ | discriminate ].
  intros H. exists sx, sy. repeat split. now apply math_sqrt_Ok.
Qed.

Lemma math_sqrt_of_nonneg (v : float) :
  SF_nonneg (Prim2SF v) = true -> math_sqrt v = Ok (sqrt v).
Proof.
  intros H. unfold math_sqrt.
  destruct (is_nan (sqrt v)) eqn:N; [ | reflexivity ].
  destruct (is_nan v) eqn:V; [ reflexivity | ].
  apply is_nan_SF in N. rewrite sqrt_spec in N.
  apply SFsqrt_not_nan in N; [ destruct N | exact H | ].
  intros E. apply is_nan_SF in E. congruence.
Qed.

(** With squares that are not negative the square root is taken, and the
    distance is the root of their sum. *)
Lemma distance_of_squares (a b : Pose) (sx sy : float) :
  pow2 (x a - x b) = Ok sx -> pow2 (y a - y b) = Ok sy ->
  distance a b = Ok (sqrt (sx + sy)).
Proof.
  intros Hx Hy. rewrite distance_eq, Hx, Hy.
  apply math_sqrt_of_nonneg. rewrite add_spec.
  apply SFadd_nonneg; eapply pow2_not_negative; eassumption.
Qed.

Lemma distance_cases (a b : Pose) :
  distance a b = Raise OverflowError
  \/ exists d, distance a b = Ok d
               /\ (d <? 0.0) = false
               /\ SF_nonneg (Prim2SF d) = true.
Proof.
  destruct (pow2 (x a - x b)) as [sx|ex] eqn:Hx.
  - destruct (pow2 (y a - y b)) as [sy|ey] eqn:Hy.
    + right. exists (sqrt (sx + sy)).
      split; [ now apply distance_of_squares | ].
      assert (N : SF_nonneg (Prim2SF (sqrt (sx + sy))) = true)
        by (rewrite sqrt_spec; apply SFsqrt_nonneg).
      split; [ | exact N ].
      rewrite ltb_spec. now apply SFltb_nonneg_zero.
    + left. rewrite distance_eq, Hx, Hy. f_equal.
      now apply (pow2_Raise (y a - y b)).
  - left. rewrite distance_eq, Hx. f_equal.
    now apply (pow2_Raise (x a - x b)).
Qed.

Lemma sub_diag_finite (v : float) : is_finite v = true -> v - v = 0.0.
Proof.
  intros H. rewrite is_finite_SF in H.
  apply Prim2SF_inj. rewrite sub_spec. now rewrite SFsub_diag.
Qed.

Lemma sub_not_finite (u v : float) :
  is_finite u = false \/ is_finite v = false -> is_finite (u - v) = false.
Proof.
  rewrite !is_finite_SF, sub_spec. apply SFsub_not_finite.
Qed.

Lemma distance_not_finite (a b : Pose) (d : float) :
  is_finite (x a) && is_finite (y a) && is_finite (x b) && is_finite (y b)
    = false ->
  distance a b = Ok d ->
  Prim2SF d = S754_nan \/ Prim2SF d = S754_infinity false.
Proof.
  intros H E. apply distance_Ok in E as (sx & sy & Hx & Hy & ->).
  rewrite sqrt_spec. apply SFsqrt_not_finite.
  rewrite add_spec. apply SFadd_not_finite.
  assert (P : forall u v s, is_finite u = false \/ is_finite v = false ->
              pow2 (u - v) = Ok s -> SF_finite (Prim2SF s) = false).
  { intros u v s F S. apply sub_not_finite in F.
    destruct (pow2_of_not_finite _ F) as (r & R & Fr). congruence. }
  destruct (is_finite (x a)) eqn:Fxa;
    [ | left; apply (P (x a) (x b) sx); [ now left | exact Hx ] ].
  destruct (is_finite (y a)) eqn:Fya;
    [ | right; apply (P (y a) (y b) sy); [ now left | exact Hy ] ].
  destruct (is_finite (x b)) eqn:Fxb;
    [ | left; apply (P (x a) (x b) sx); [ now right | exact Hx ] ].
  destruct (is_finite (y b)) eqn:Fyb;
    [ discriminate H
    | right; apply (P (y a) (y b) sy); [ now right | exact Hy ] ].
Qed.

Lemma SF_exponent_le_mono (E E' : Z) (s : spec_float) :
  (E <= E')%Z -> SF_exponent_le E s -> SF_exponent_le E' s.
Proof. destruct s; cbn [SF_exponent_le]; try tauto. lia. Qed.

Lemma SF_exponent_le_finite (E : Z) (s : spec_float) :
  SF_exponent_le E s -> SF_finite s = true.
Proof. destruct s; cbn; tauto. Qed.

Lemma is_finite_not_infinity (v : float) :
  is_finite v = true -> is_infinity v = false.
Proof.
  unfold is_finite. intros H. apply negb_true_iff, orb_false_iff in H.
  apply H.
Qed.

(** A float whose magnitude is at most a power of two has the exponent of
    that power at most, and a float with a smaller exponent is below it. *)
Lemma leb_power_exponent (v c : float) (m : positive) (E : Z) :
  Prim2SF c = S754_finite false m E ->
  is_finite v = true -> (abs v <=? c) = true ->
  SF_exponent_le E (Prim2SF v).
Proof.
  intros C F R. rewrite leb_spec, abs_spec, C in R.
  rewrite is_finite_SF in F.
  destruct (Prim2SF v) as [s|s| |s m' e]; cbn [SF_exponent_le];
    try discriminate F; [ exact I | ].
  unfold SFleb in R. cbn [SFabs SFcompare] in R.
  destruct (Z.compare_spec e E) as [L|L|L]; [ lia | lia | discriminate R ].
Qed.

Lemma exponent_leb_power (v c : float) (m : positive) (E E' : Z) :
  Prim2SF c = S754_finite false m E ->
  SF_exponent_le E' (Prim2SF v) -> (E' < E)%Z ->
  (abs (abs v) <=? c) = true.
Proof.
  intros C L Lt. rewrite leb_spec, !abs_spec, C.
  destruct (Prim2SF v) as [s|s| |s m' e]; cbn [SF_exponent_le] in L;
    try contradiction; [ reflexivity | ].
  unfold SFleb. cbn [SFabs SFcompare].
  destruct (Z.compare_spec e E) as [L'|L'|L']; [ lia | reflexivity | lia ].
Qed.

Lemma float32_range_exponent (v : float) :
  is_finite v = true -> float32_range v = true ->
  SF_exponent_le 76 (Prim2SF v).
Proof.
  unfold float32_range. intros F R. rewrite F in R. cbn [negb orb] in R.
  apply (leb_power_exponent v 0x1p128 4503599627370496); try assumption.
  vm_compute. reflexivity.
Qed.

(** The square of a difference of two float32 values does not overflow. *)
Lemma pow2_in_range (u v : float) :
  float32_range u = true -> float32_range v = true ->
  exists r, pow2 (u - v) = Ok r.
Proof.
  intros Ru Rv. unfold pow2.
  destruct (is_nan (u - v)) eqn:N; [ now eexists | ].
  destruct (is_infinity (u - v)) eqn:I; [ now eexists | ].
  destruct (u - v =? 0.0); [ now eexists | ].
  destruct (abs (u - v) =? 1.0); [ now eexists | ].
  assert (F : is_finite (u - v) = true)
    by (unfold is_finite; now rewrite N, I).
  assert (Fu : is_finite u = true).
  { destruct (is_finite u) eqn:E; [ reflexivity | ].
    rewrite sub_not_finite in F by now left. discriminate F. }
  assert (Fv : is_finite v = true).
  { destruct (is_finite v) eqn:E; [ reflexivity | ].
    rewrite sub_not_finite in F by now right. discriminate F. }
  pose proof (SFsub_exponent _ _ 76 (Prim2SF_valid u) (Prim2SF_valid v)
                (float32_range_exponent u Fu Ru)
                (float32_range_exponent v Fv Rv) ltac:(lia)) as B.
  rewrite <- sub_spec in B.
  rewrite libm_pow2_finite; [ now eexists | ].
  apply (exponent_leb_power _ _ 4503599627370496 458 78);
    [ vm_compute; reflexivity | exact B | lia ].
Qed.

Lemma distance_in_range (a b : Pose) :
  pose_in_range a = true -> pose_in_range b = true ->
  exists d, distance a b = Ok d.
Proof.
  unfold pose_in_range. intros Ha Hb.
  apply andb_prop in Ha as [Hxa Hya]. apply andb_prop in Hb as [Hxb Hyb].
  destruct (pow2_in_range _ _ Hxa Hxb) as [sx Hx].
  destruct (pow2_in_range _ _ Hya Hyb) as [sy Hy].
  eexists. now apply (distance_of_squares a b sx sy).
Qed.


(** ** What each call does *)

Lemma boundary_cmd_eq (pose : Pose) :
  boundary_cmd pose =
  if (x pose >? 9.0) || (x pose <? 2.0) || (y pose >? 9.0) || (y pose <? 2.0)
  then turn_cmd else cruise_cmd.
Proof. reflexivity. Qed.

Lemma avoid_collision_eq (n : Node) :
  avoid_collision n = mkOutcome (Ok tt) n override.
Proof. reflexivity. Qed.

Lemma check_collision_at_eq (t : float) (n : Node) :
  check_collision_at t n =
  match turtle1_pose n, turtle2_pose n with
  | Some p1, Some p2 =>
      match distance p1 p2 with
      | Ok d => mkOutcome (Ok tt) n (if d <? t then override else [])
      | Raise e => mkOutcome (Raise e) n []
      end
  | _, _ => mkOutcome (Ok tt) n []
  end.
Proof.
  unfold check_collision_at, bind, get, lift; cbn [res final out app].
  destruct (turtle1_pose n) as [p1|], (turtle2_pose n) as [p2|];
    try reflexivity.
  destruct (distance p1 p2) as [d|e]; cbn [res final out app];
    [ | reflexivity ].
  destruct (d <? t); reflexivity.
Qed.

Lemma check_collision_at_out (t : float) (n : Node) :
  out (check_collision_at t n) = if conflict_at t n then override else [].
Proof.
  rewrite check_collision_at_eq. unfold conflict_at.
  destruct (turtle1_pose n) as [p1|], (turtle2_pose n) as [p2|];
    try reflexivity.
  destruct (distance p1 p2) as [d|e]; reflexivity.
Qed.

Lemma check_collision_at_final (t : float) (n : Node) :
  final (check_collision_at t n) = n.
Proof.
  rewrite check_collision_at_eq.
  destruct (turtle1_pose n) as [p1|], (turtle2_pose n) as [p2|];
    try reflexivity.
  destruct (distance p1 p2) as [d|e]; reflexivity.
Qed.

Lemma move_turtle_turtle1 (pose : Pose) (n : Node) :
  move_turtle "turtle1" pose n =
  mkOutcome (Ok tt) (set_previous_turtle1 (x pose) (y pose) n)
            [(turtle1_vel_pub, boundary_cmd pose)].
Proof. reflexivity. Qed.

Lemma move_turtle_turtle2 (pose : Pose) (n : Node) :
  move_turtle "turtle2" pose n =
  mkOutcome (Ok tt) (set_previous_turtle2 (x pose) (y pose) n)
            [(turtle2_vel_pub, boundary_cmd pose)].
Proof. reflexivity. Qed.

Lemma conflict_at_moved (t : float) (u : Update) (n : Node) :
  conflict_at t (moved u n) = conflict_at t (record_pose u n).
Proof. destruct u; reflexivity. Qed.

Lemma deliver_eq (u : Update) (n : Node) :
  deliver u n =
  let o := check_collision (moved u n) in
  mkOutcome (res o) (moved u n)
            ((update_publisher u, boundary_cmd (update_pose u)) :: out o).
Proof.
  destruct u as [pose|pose]; cbn [deliver moved update_publisher update_pose];
    unfold pose_callback_turtle1, pose_callback_turtle2, bind.
  - rewrite move_turtle_turtle1. cbn [modify res final out app].
    unfold check_collision. now rewrite check_collision_at_final.
  - rewrite move_turtle_turtle2. cbn [modify res final out app].
    unfold check_collision. now rewrite check_collision_at_final.
Qed.

Lemma deliver_out (u : Update) (n : Node) :
  out (deliver u n) =
  (update_publisher u, boundary_cmd (update_pose u))
    :: (if conflict (record_pose u n) then override else []).
Proof.
  rewrite deliver_eq. cbn [out]. unfold check_collision, conflict.
  now rewrite check_collision_at_out, conflict_at_moved.
Qed.

Lemma deliver_final (u : Update) (n : Node) : final (deliver u n) = moved u n.
Proof. now rewrite deliver_eq. Qed.

(** ** Conflict resolution *)

(** C1.  Whenever the stored poses are in conflict, the resolution step
    publishes the full stop (linear 0.0, angular 0.0) for turtle 1 and the
    advance command (linear 2.0, angular 0.0) for turtle 2, and nothing else:
    [avoid_collision] publishes them from every state, [check_collision]
    publishes exactly them when the distance is below the threshold, and in
    the callback of either turtle they come last, whatever command
    [move_turtle] computed before. *)
Theorem conflict_resolution_commands (n : Node) (H : conflict n = true) :
  out (avoid_collision n) =
    [(turtle1_vel_pub, stop_cmd); (turtle2_vel_pub, move_cmd)]
  /\ out (check_collision n) = out (avoid_collision n)
  /\ linear_speed stop_cmd = 0.0 /\ angular_speed stop_cmd = 0.0
  /\ linear_speed move_cmd = 2.0 /\ angular_speed move_cmd = 0.0
  /\ (forall (u : Update) (m : Node), record_pose u m = n ->
        exists baseline : Command,
          out (deliver u m) =
            baseline :: [(turtle1_vel_pub, stop_cmd); (turtle2_vel_pub, move_cmd)]).
Proof.
  repeat split.
  - unfold check_collision. rewrite check_collision_at_out.
    change (conflict_at COLLISION_THRESHOLD n) with (conflict n).
    now rewrite H.
  - intros u m E. eexists. rewrite deliver_out, E, H. reflexivity.
Qed.

(** ** Conflict detection *)


(** ** Steering *)

(** C3, amended.  The comparisons are strict: a pose with 2 <= x <= 9 and
    2 <= y <= 9, a bound included, and so every pose strictly inside, gets
    the cruise command (linear 2.0, angular 0.0); a pose with x > 9, x < 2,
    y > 9 or y < 2 gets the turn command (linear 1.0, angular 0.9). *)
Theorem steering_by_strict_margin (pose : Pose) :
  (((2.0 <=? x pose) && (x pose <=? 9.0)
      && (2.0 <=? y pose) && (y pose <=? 9.0) = true ->
    boundary_cmd pose = cruise_cmd)
   /\ ((2.0 <? x pose) && (x pose <? 9.0)
      && (2.0 <? y pose) && (y pose <? 9.0) = true ->
    boundary_cmd pose = cruise_cmd)
   /\ ((x pose >? 9.0) = true \/ (x pose <? 2.0) = true
       \/ (y pose >? 9.0) = true \/ (y pose <? 2.0) = true ->
    boundary_cmd pose = turn_cmd))
  /\ linear_speed cruise_cmd = 2.0 /\ angular_speed cruise_cmd = 0.0
  /\ linear_speed turn_cmd = 1.0 /\ angular_speed turn_cmd = 0.9.
Proof.
  repeat split; rewrite boundary_cmd_eq.
  - intros H.
    apply andb_prop in H as [H Hy9]. apply andb_prop in H as [H Hy2].
    apply andb_prop in H as [Hx2 Hx9].
    now rewrite (leb_not_gtb _ _ Hx9), (geb_not_ltb _ _ Hx2),
                (leb_not_gtb _ _ Hy9), (geb_not_ltb _ _ Hy2).
  - intros H.
    apply andb_prop in H as [H Hy9]. apply andb_prop in H as [H Hy2].
    apply andb_prop in H as [Hx2 Hx9].
    now rewrite (ltb_not_gtb _ _ Hx9), (geb_not_ltb _ _ (ltb_leb _ _ Hx2)),
                (ltb_not_gtb _ _ Hy9), (geb_not_ltb _ _ (ltb_leb _ _ Hy2)).
  - intros [H | [H | [H | H]]]; rewrite H;
      rewrite ?orb_true_r, ?orb_true_l; reflexivity.
Qed.

(** ** One tick of the controller *)

(** C4, amended.  On a tick that detects a conflict the callback first
    publishes the command of [move_turtle] for the turtle whose pose arrived,
    and then the override for both turtles: the stop for turtle 1 and the
    advance for turtle 2, whichever turtle moved.  The override is the last
    command of the tick for each turtle. *)
Theorem conflict_tick_commands (u : Update) (n : Node)
    (H : conflict (record_pose u n) = true) :
  out (deliver u n) =
    [(update_publisher u, boundary_cmd (update_pose u));
     (turtle1_vel_pub, stop_cmd);
     (turtle2_vel_pub, move_cmd)]
  /\ res (deliver u n) = Ok tt.
Proof.
  split.
  - now rewrite deliver_out, H.
  - rewrite deliver_eq; cbn [res]. unfold check_collision.
    rewrite check_collision_at_eq.
    unfold conflict in H. rewrite <- conflict_at_moved in H.
    unfold conflict_at in H.
    destruct (turtle1_pose (moved u n)) as [p1|],
             (turtle2_pose (moved u n)) as [p2|]; try reflexivity.
    destruct (distance p1 p2); [ reflexivity | discriminate H ].
Qed.

(** C8.  On a tick that detects no conflict the callback publishes exactly
    one command: the command of [move_turtle] for the turtle whose pose
    arrived, on that turtle's publisher, and nothing for the other turtle. *)
Theorem clear_tick_commands (u : Update) (n : Node)
    (H : conflict (record_pose u n) = false) :
  out (deliver u n) = [(update_publisher u, boundary_cmd (update_pose u))]
  /\ (forall p cmd, In (p, cmd) (out (deliver u n)) -> p = update_publisher u).
Proof.
  assert (E : out (deliver u n)
              = [(update_publisher u, boundary_cmd (update_pose u))])
    by now rewrite deliver_out, H.
  split; [ exact E | ].
  intros p cmd HIn. rewrite E in HIn.
  destruct HIn as [HIn | []]. now injection HIn as <- _.
Qed.

(** ** The stored fields *)

(** C5, amended.  A pose update for a turtle stores the new pose as that
    turtle's pose and sets that turtle's previous position fields to the x
    and y of the new pose; the pose and the previous position fields of the
    other turtle are left as they were. *)
Theorem update_stores_pose_and_position (pose : Pose) (n : Node) :
  (turtle1_pose (final (pose_callback_turtle1 pose n)) = Some pose
   /\ previous_x_turtle1 (final (pose_callback_turtle1 pose n)) = x pose
   /\ previous_y_turtle1 (final (pose_callback_turtle1 pose n)) = y pose
   /\ turtle2_pose (final (pose_callback_turtle1 pose n)) = turtle2_pose n
   /\ previous_x_turtle2 (final (pose_callback_turtle1 pose n))
        = previous_x_turtle2 n
   /\ previous_y_turtle2 (final (pose_callback_turtle1 pose n))
        = previous_y_turtle2 n)
  /\ (turtle2_pose (final (pose_callback_turtle2 pose n)) = Some pose
   /\ previous_x_turtle2 (final (pose_callback_turtle2 pose n)) = x pose
   /\ previous_y_turtle2 (final (pose_callback_turtle2 pose n)) = y pose
   /\ turtle1_pose (final (pose_callback_turtle2 pose n)) = turtle1_pose n
   /\ previous_x_turtle1 (final (pose_callback_turtle2 pose n))
        = previous_x_turtle1 n
   /\ previous_y_turtle1 (final (pose_callback_turtle2 pose n))
        = previous_y_turtle1 n).
Proof.
  change (pose_callback_turtle1 pose n) with (deliver (Pose1 pose) n).
  change (pose_callback_turtle2 pose n) with (deliver (Pose2 pose) n).
  rewrite !deliver_final. repeat split.
Qed.

(** ** Names other than the two turtles *)

(** C6, amended.  For a name other than "turtle1" and "turtle2",
    [move_turtle] publishes no command, changes no field and returns
    normally, without an exception. *)
Theorem unknown_name_is_ignored (turtle_name : string) (pose : Pose) (n : Node)
    (H1 : turtle_name <> "turtle1") (H2 : turtle_name <> "turtle2") :
  res (move_turtle turtle_name pose n) = Ok tt
  /\ final (move_turtle turtle_name pose n) = n
  /\ out (move_turtle turtle_name pose n) = [].
Proof.
  unfold move_turtle.
  apply String.eqb_neq in H1. apply String.eqb_neq in H2.
  rewrite H1, H2. repeat split.
Qed.

(** ** Runs of the node *)

Lemma deliver_res (u : Update) (n : Node) :
  res (deliver u n) = res (check_collision (moved u n)).
Proof. now rewrite deliver_eq. Qed.

Lemma spin_cons (u : Update) (us : list Update) (n : Node) :
  spin (u :: us) n =
  match res (deliver u n) with
  | Ok _ => mkOutcome (res (spin us (moved u n)))
                      (final (spin us (moved u n)))
                      (out (deliver u n) ++ out (spin us (moved u n)))
  | Raise e => mkOutcome (Raise e) (moved u n) (out (deliver u n))
  end.
Proof.
  cbn [spin]. unfold bind. rewrite deliver_final.
  destruct (res (deliver u n)); reflexivity.
Qed.

Lemma pose_of_moved_self (u : Update) (n : Node) :
  pose_of (update_publisher u) (moved u n) = Some (update_pose u).
Proof. destruct u; reflexivity. Qed.

Lemma pose_of_moved_known (p : Publisher) (u : Update) (n : Node) :
  pose_of p n <> None -> pose_of p (moved u n) <> None.
Proof. destruct p, u; cbn; congruence. Qed.

Lemma spin_keeps_pose (p : Publisher) (us : list Update) :
  forall n, pose_of p n <> None -> pose_of p (final (spin us n)) <> None.
Proof.
  induction us as [|u us IH]; intros n H; [ exact H | ].
  rewrite spin_cons.
  destruct (res (deliver u n)); cbn [final];
    auto using pose_of_moved_known.
Qed.

Lemma conflict_at_poses_known (t : float) (n : Node) :
  conflict_at t n = true ->
  turtle1_pose n <> None /\ turtle2_pose n <> None.
Proof.
  unfold conflict_at.
  destruct (turtle1_pose n), (turtle2_pose n); try discriminate.
  split; discriminate.
Qed.

(** A command of one tick is for the turtle that moved, or both poses are
    stored. *)
Lemma deliver_command_pose (u : Update) (n : Node) (p : Publisher) (cmd : Twist) :
  In (p, cmd) (out (deliver u n)) ->
  pose_of p (moved u n) <> None
  /\ (p = update_publisher u \/ pose_of p n <> None).
Proof.
  rewrite deliver_out. intros [E | HIn].
  - injection E as <- _. rewrite pose_of_moved_self.
    split; [ discriminate | now left ].
  - destruct (conflict (record_pose u n)) eqn:C; [ | destruct HIn ].
    unfold conflict in C. pose proof C as C'.
    rewrite <- conflict_at_moved in C'.
    apply conflict_at_poses_known in C' as [K1 K2].
    split; [ destruct p; assumption | ].
    apply conflict_at_poses_known in C as [K1' K2'].
    destruct p, u; cbn in *; auto.
Qed.

Lemma spin_command_pose (p : Publisher) (cmd : Twist) (us : list Update) :
  forall n, In (p, cmd) (out (spin us n)) ->
  pose_of p (final (spin us n)) <> None
  /\ ((exists u, In u us /\ update_publisher u = p) \/ pose_of p n <> None).
Proof.
  induction us as [|u us IH]; intros n HIn; [ destruct HIn | ].
  rewrite spin_cons in HIn |- *.
  destruct (res (deliver u n)); cbn [out final] in *.
  - apply in_app_or in HIn as [HIn | HIn].
    + apply deliver_command_pose in HIn as [K [E | K']].
      * split; [ now apply spin_keeps_pose | ].
        left. exists u. split; [ now left | now symmetry ].
      * split; [ now apply spin_keeps_pose | now right ].
    + apply IH in HIn as [K [(u' & HIn' & E) | K']].
      * split; [ exact K | ]. left. exists u'. split; [ now right | exact E ].
      * split; [ exact K | ].
        destruct (Publisher_eqb p (update_publisher u)) eqn:Q.
        -- left. exists u. split; [ now left | ].
           destruct p, u; cbn in Q; try discriminate; reflexivity.
        -- right. destruct p, u; cbn in *; try discriminate; exact K'.
  - apply deliver_command_pose in HIn as [K [E | K']].
    + split; [ exact K | ]. left. exists u. split; [ now left | now symmetry ].
    + split; [ exact K | now right ].
Qed.

Lemma spin_app_out (us us' : list Update) :
  forall n, exists tl, out (spin (us ++ us') n) = out (spin us n) ++ tl.
Proof.
  induction us as [|u us IH]; intros n.
  - exists (out (spin us' n)). reflexivity.
  - cbn [app]. rewrite !spin_cons.
    destruct (res (deliver u n)); cbn [out].
    + destruct (IH (moved u n)) as [tl E]. exists tl.
      now rewrite E, app_assoc.
    + exists []. now rewrite app_nil_r.
Qed.

(** C7.  In every run from the initial node, over every sequence of pose
    updates: a command published for a turtle implies that the run contains
    a pose update of that turtle and that its pose is stored; what a longer
    run publishes extends what its prefix published, so a turtle has no
    command before its first pose; and [check_collision] publishes only
    when both poses are stored. *)
Theorem commands_only_after_pose (us : list Update) :
  (forall p cmd, In (p, cmd) (out (spin us init)) ->
     pose_of p (final (spin us init)) <> None
     /\ exists u, In u us /\ update_publisher u = p)
  /\ (forall us', exists tl,
        out (spin (us ++ us') init) = out (spin us init) ++ tl)
  /\ (forall n, out (check_collision n) <> [] ->
        turtle1_pose n <> None /\ turtle2_pose n <> None).
Proof.
  repeat split.
  - now apply (spin_command_pose p cmd us init).
  - apply (spin_command_pose p cmd us init) in H as [_ [H | H]];
      [ exact H | destruct p; now contradiction H ].
  - intros us'. apply spin_app_out.
  - unfold check_collision in H. rewrite check_collision_at_out in H.
    destruct (conflict_at COLLISION_THRESHOLD n) eqn:C; [ | now contradiction H ].
    now apply conflict_at_poses_known in C.
  - unfold check_collision in H. rewrite check_collision_at_out in H.
    destruct (conflict_at COLLISION_THRESHOLD n) eqn:C; [ | now contradiction H ].
    now apply conflict_at_poses_known in C.
Qed.

(** ** Independence from the previous position fields and the heading *)

Lemma same_poses_conflict_at (t : float) (n1 n2 : Node) :
  same_poses n1 n2 -> conflict_at t n1 = conflict_at t n2.
Proof. intros [E1 E2]. unfold conflict_at. now rewrite E1, E2. Qed.

Lemma same_poses_moved (u : Update) (n1 n2 : Node) :
  same_poses n1 n2 -> same_poses (moved u n1) (moved u n2).
Proof. intros [E1 E2]. destruct u; split; cbn; congruence. Qed.

Lemma same_poses_check_collision_res (n1 n2 : Node) :
  same_poses n1 n2 -> res (check_collision n1) = res (check_collision n2).
Proof.
  intros [E1 E2]. unfold check_collision. rewrite !check_collision_at_eq.
  rewrite E1, E2.
  destruct (turtle1_pose n2) as [p1|], (turtle2_pose n2) as [p2|];
    try reflexivity.
  destruct (distance p1 p2); reflexivity.
Qed.

Lemma same_poses_deliver (u : Update) (n1 n2 : Node) :
  same_poses n1 n2 ->
  out (deliver u n1) = out (deliver u n2)
  /\ res (deliver u n1) = res (deliver u n2).
Proof.
  intros S. pose proof (same_poses_moved u _ _ S) as S'. split.
  - rewrite !deliver_out. unfold conflict.
    rewrite <- !conflict_at_moved.
    now rewrite (same_poses_conflict_at _ _ _ S').
  - rewrite !deliver_res. now apply same_poses_check_collision_res.
Qed.

Lemma same_poses_spin (us : list Update) :
  forall n1 n2, same_poses n1 n2 ->
  out (spin us n1) = out (spin us n2)
  /\ res (spin us n1) = res (spin us n2)
  /\ same_poses (final (spin us n1)) (final (spin us n2)).
Proof.
  induction us as [|u us IH]; intros n1 n2 S.
  - repeat split; [ apply S | apply S ].
  - rewrite !spin_cons.
    destruct (same_poses_deliver u _ _ S) as [Eo Er]. rewrite Eo, Er.
    pose proof (same_poses_moved u _ _ S) as S'.
    destruct (res (deliver u n2)); cbn [out res final].
    + destruct (IH _ _ S') as (Io & Ir & If). now rewrite Io, Ir.
    + repeat split; [ apply S' | apply S' ].
Qed.

(** C9.  Two nodes that store the same poses and differ in any way in the
    previous position fields publish the same commands, and end the same
    way, on the same pose update, and so on every sequence of pose updates;
    the stored poses stay equal. *)
Theorem previous_positions_do_not_interfere (n1 n2 : Node)
    (H1 : turtle1_pose n1 = turtle1_pose n2)
    (H2 : turtle2_pose n1 = turtle2_pose n2) :
  (forall u : Update,
     out (deliver u n1) = out (deliver u n2)
     /\ res (deliver u n1) = res (deliver u n2)
     /\ same_poses (final (deliver u n1)) (final (deliver u n2)))
  /\ (forall us : list Update,
     out (spin us n1) = out (spin us n2)
     /\ res (spin us n1) = res (spin us n2)
     /\ same_poses (final (spin us n1)) (final (spin us n2))).
Proof.
  assert (S : same_poses n1 n2) by (split; assumption).
  split.
  - intros u. destruct (same_poses_deliver u _ _ S) as [Eo Er].
    repeat split; try assumption;
      rewrite !deliver_final; now apply same_poses_moved.
  - intros us. now apply same_poses_spin.
Qed.

(** C10.  The command of [move_turtle] depends on the x and y of the pose
    only: two poses with the same x and y, whatever their headings and
    velocities, get the same command, and [move_turtle] publishes the same
    for both.  Near any of the four edges the command is the one turn
    command, with angular speed 0.9. *)
Theorem steering_ignores_heading (p q : Pose)
    (Hx : x p = x q) (Hy : y p = y q) :
  boundary_cmd p = boundary_cmd q
  /\ (forall turtle_name n,
        out (move_turtle turtle_name p n) = out (move_turtle turtle_name q n))
  /\ ((x p >? 9.0) = true \/ (x p <? 2.0) = true
      \/ (y p >? 9.0) = true \/ (y p <? 2.0) = true ->
      boundary_cmd p = turn_cmd /\ angular_speed (boundary_cmd p) = 0.9).
Proof.
  assert (E : boundary_cmd p = boundary_cmd q)
    by (rewrite !boundary_cmd_eq; now rewrite Hx, Hy).
  repeat split.
  - exact E.
  - intros turtle_name n. unfold move_turtle. rewrite E.
    destruct (String.eqb turtle_name "turtle1"); [ reflexivity | ].
    destruct (String.eqb turtle_name "turtle2"); reflexivity.
  - rewrite boundary_cmd_eq.
    destruct H as [H | [H | [H | H]]]; rewrite H;
      rewrite ?orb_true_r, ?orb_true_l; reflexivity.
  - rewrite boundary_cmd_eq.
    destruct H as [H | [H | [H | H]]]; rewrite H;
      rewrite ?orb_true_r, ?orb_true_l; reflexivity.
Qed.

(** * Further properties of the node *)

(** ** Detection *)

(** X4.  With a C library whose [pow(v, 2.0)] is never below zero, the
    distance expression of [check_collision] never raises the [ValueError]
    of [math.sqrt]: it raises [OverflowError], or it returns a float that is
    not below zero (a NaN or a number that is not negative). *)
Theorem distance_overflows_or_is_not_negative (a b : Pose) :
  distance a b = Raise OverflowError
  \/ exists d, distance a b = Ok d
               /\ (d <? 0.0) = false
               /\ SF_nonneg (Prim2SF d) = true.
Proof. exact (distance_cases a b). Qed.

(** X1.  Detection is symmetric in the two turtles: the distance expression
    gives the same float, or raises the same exception, with the two poses
    exchanged, and [check_collision] publishes and ends the same on a node
    that stores the two poses the other way round. *)
Theorem detection_is_symmetric (a b : Pose) (t : float) (n m : Node) :
  distance b a = distance a b
  /\ (turtle1_pose n = Some a -> turtle2_pose n = Some b ->
      turtle1_pose m = Some b -> turtle2_pose m = Some a ->
      conflict_at t m = conflict_at t n
      /\ out (check_collision_at t m) = out (check_collision_at t n)
      /\ res (check_collision_at t m) = res (check_collision_at t n)).
Proof.
  assert (E : distance b a = distance a b)
    by (unfold distance; now rewrite (pow2_swap (x a)), (pow2_swap (y a))).
  split; [ exact E | ].
  intros N1 N2 M1 M2.
  rewrite !check_collision_at_out, !check_collision_at_eq.
  unfold conflict_at. rewrite N1, N2, M1, M2, E.
  destruct (distance a b); repeat split.
Qed.

(** X2.  Two turtles reported at the same finite position are at distance
    0.0, so [check_collision] resolves a conflict between them: it publishes
    the override and returns. *)
Theorem coincident_poses_conflict (n : Node) (a b : Pose)
    (H1 : turtle1_pose n = Some a) (H2 : turtle2_pose n = Some b)
    (Hx : x a = x b) (Hy : y a = y b)
    (Fx : is_finite (x a) = true) (Fy : is_finite (y a) = true) :
  distance a b = Ok 0.0
  /\ check_collision n = mkOutcome (Ok tt) n override.
Proof.
  assert (E : distance a b = Ok 0.0).
  { unfold distance. rewrite <- Hx, <- Hy.
    now rewrite (sub_diag_finite _ Fx), (sub_diag_finite _ Fy). }
  split; [ exact E | ].
  unfold check_collision. rewrite check_collision_at_eq, H1, H2, E.
  reflexivity.
Qed.

(** X3.  A pose with a coordinate that is NaN or infinite is never in
    conflict, whatever the other pose and the threshold: [check_collision]
    publishes nothing for the pair. *)
Theorem nonfinite_pose_never_conflicts (t : float) (n : Node) (p1 p2 : Pose)
    (H1 : turtle1_pose n = Some p1) (H2 : turtle2_pose n = Some p2)
    (H : is_finite (x p1) && is_finite (y p1)
         && is_finite (x p2) && is_finite (y p2) = false) :
  conflict_at t n = false /\ out (check_collision_at t n) = [].
Proof.
  assert (C : conflict_at t n = false).
  { unfold conflict_at. rewrite H1, H2.
    destruct (distance p1 p2) as [d|e] eqn:E; [ | reflexivity ].
    rewrite ltb_spec. apply SFltb_nan_or_infinity.
    now apply (distance_not_finite p1 p2). }
  split; [ exact C | ]. now rewrite check_collision_at_out, C.
Qed.

(** ** Steering on coordinates that are not numbers *)

Lemma nan_compares_false (v c : float) :
  is_nan v = true -> (v >? c) = false /\ (v <? c) = false.
Proof.
  intros H. apply is_nan_SF in H. unfold gtb. rewrite !ltb_spec, H.
  split; [ | reflexivity ].
  unfold SFltb. now rewrite (SFcompare_antisym S754_nan (Prim2SF c)).
Qed.

Lemma infinity_outside_margin (v : float) :
  is_infinity v = true -> (v >? 9.0) || (v <? 2.0) = true.
Proof.
  unfold is_infinity, gtb. rewrite eqb_spec, !ltb_spec, abs_spec.
  change (Prim2SF infinity) with (S754_infinity false).
  set (c9 := Prim2SF 9.0). set (c2 := Prim2SF 2.0).
  vm_compute in c9, c2. subst c9 c2.
  destruct (Prim2SF v) as [s|[|]| |s m e]; unfold SFeqb, SFltb;
    cbn [SFabs SFcompare]; try discriminate; reflexivity.
Qed.

(** X5.  Coordinates that are not numbers.  A NaN coordinate fails both of
    its comparisons, so [move_turtle] decides on the other coordinate alone,
    and a pose with both coordinates NaN gets the cruise command; an
    infinite coordinate is outside the margin and gets the turn command. *)
Theorem steering_of_nonfinite_pose (pose : Pose) :
  (is_nan (x pose) = true ->
     boundary_cmd pose
     = if (y pose >? 9.0) || (y pose <? 2.0) then turn_cmd else cruise_cmd)
  /\ (is_nan (y pose) = true ->
     boundary_cmd pose
     = if (x pose >? 9.0) || (x pose <? 2.0) then turn_cmd else cruise_cmd)
  /\ (is_nan (x pose) = true -> is_nan (y pose) = true ->
     boundary_cmd pose = cruise_cmd)
  /\ (is_infinity (x pose) = true \/ is_infinity (y pose) = true ->
     boundary_cmd pose = turn_cmd).
Proof.
  rewrite boundary_cmd_eq. repeat split.
  - intros H. destruct (nan_compares_false _ 9.0 H) as [-> _].
    destruct (nan_compares_false _ 2.0 H) as [_ ->].
    reflexivity.
  - intros H. destruct (nan_compares_false _ 9.0 H) as [-> _].
    destruct (nan_compares_false _ 2.0 H) as [_ ->].
    now rewrite !orb_false_r.
  - intros Hx Hy.
    destruct (nan_compares_false _ 9.0 Hx) as [-> _].
    destruct (nan_compares_false _ 2.0 Hx) as [_ ->].
    destruct (nan_compares_false _ 9.0 Hy) as [-> _].
    destruct (nan_compares_false _ 2.0 Hy) as [_ ->].
    reflexivity.
  - intros [H | H]; apply infinity_outside_margin in H.
    + now rewrite H.
    + rewrite <- orb_assoc, H. now rewrite orb_true_r.
Qed.

(** ** Failing callbacks *)

Lemma check_collision_res (n : Node) :
  res (check_collision n) = Ok tt
  \/ (res (check_collision n) = Raise OverflowError /\ conflict n = false).
Proof.
  unfold check_collision, conflict, conflict_at.
  rewrite check_collision_at_eq.
  destruct (turtle1_pose n) as [p1|], (turtle2_pose n) as [p2|];
    try (left; reflexivity).
  destruct (distance_cases p1 p2) as [E | (d & E & _)];
    rewrite E; [ right | left ]; repeat split.
Qed.

(** X6.  With a C library whose [pow(v, 2.0)] is never below zero, a
    callback returns, or it raises [OverflowError] and nothing else;
    when it raises, the pose is already stored and the command of
    [move_turtle] for the turtle that moved is already published, alone.  A
    tick that detects a conflict never raises.  A run of callbacks ends the
    same two ways. *)
Theorem callback_failure_is_overflow (u : Update) (n : Node) :
  (res (deliver u n) = Ok tt
   \/ (res (deliver u n) = Raise OverflowError
       /\ conflict (record_pose u n) = false
       /\ out (deliver u n)
          = [(update_publisher u, boundary_cmd (update_pose u))]))
  /\ pose_of (update_publisher u) (final (deliver u n)) = Some (update_pose u)
  /\ (forall us, res (spin us n) = Ok tt
                 \/ res (spin us n) = Raise OverflowError).
Proof.
  repeat split.
  - rewrite deliver_res, deliver_out.
    destruct (check_collision_res (moved u n)) as [E | [E C]];
      [ now left | right ].
    unfold conflict in C |- *. rewrite conflict_at_moved in C.
    now rewrite E, C.
  - rewrite deliver_final. apply pose_of_moved_self.
  - intros us. revert n.
    induction us as [|u' us IH]; intros n; [ now left | ].
    rewrite spin_cons, deliver_res.
    destruct (check_collision_res (moved u' n)) as [E | [E _]]; rewrite E;
      cbn [res]; [ apply IH | now right ].
Qed.

(** ** The stored fields over a run *)

Lemma previous_matches_moved (u : Update) (n : Node) :
  previous_matches n -> previous_matches (moved u n).
Proof.
  intros [H1 H2]. destruct u as [pose|pose]; split; cbn; auto.
Qed.

Lemma spin_invariant (Inv : Node -> Prop) :
  (forall u n, Inv n -> Inv (moved u n)) ->
  forall us n, Inv n -> Inv (final (spin us n)).
Proof.
  intros Step us. induction us as [|u us IH]; intros n H; [ exact H | ].
  rewrite spin_cons.
  destruct (res (deliver u n)); cbn [final]; auto.
Qed.

(** X7.  In every state a run from the initial node reaches, after every
    sequence of pose updates and also when the run ended in an exception,
    the previous position fields of each turtle are the x and y of its
    stored pose, and are 0.0 while the turtle has no stored pose. *)
Theorem previous_position_mirrors_pose (us : list Update) :
  previous_matches (final (spin us init)).
Proof.
  apply spin_invariant.
  - exact previous_matches_moved.
  - repeat split.
Qed.

Lemma latest_moved (p : Publisher) (u : Update) (n : Node) :
  pose_of p (moved u n)
  = if Publisher_eqb (update_publisher u) p
    then Some (update_pose u) else pose_of p n.
Proof. destruct p, u; reflexivity. Qed.

Lemma spin_latest (p : Publisher) (us : list Update) :
  forall n, res (spin us n) = Ok tt ->
  pose_of p (final (spin us n))
  = match latest p us with Some pose => Some pose | None => pose_of p n end.
Proof.
  induction us as [|u us IH]; intros n H; [ reflexivity | ].
  rewrite spin_cons in H |- *.
  destruct (res (deliver u n)); cbn [res final] in *; [ | discriminate H ].
  rewrite (IH _ H). cbn [latest].
  destruct (latest p us); [ reflexivity | ].
  rewrite latest_moved.
  destruct (Publisher_eqb (update_publisher u) p); reflexivity.
Qed.

(** X8.  The last update wins: after a run that returns, the stored pose of
    a turtle is the pose of the last update for that turtle, and the pose
    stored before the run when the run has no update for it. *)
Theorem stored_pose_is_latest_update
    (p : Publisher) (us : list Update) (n : Node)
    (H : res (spin us n) = Ok tt) :
  pose_of p (final (spin us n))
  = match latest p us with Some pose => Some pose | None => pose_of p n end.
Proof. now apply spin_latest. Qed.

(** ** The commands of a run *)

Lemma boundary_cmd_known (p : Publisher) (pose : Pose) :
  known_command (p, boundary_cmd pose).
Proof.
  unfold known_command. rewrite boundary_cmd_eq. cbn [snd].
  destruct ((x pose >? 9.0) || (x pose <? 2.0)
            || (y pose >? 9.0) || (y pose <? 2.0));
    [ right; left | left ]; reflexivity.
Qed.

Lemma deliver_known (u : Update) (n : Node) :
  Forall known_command (out (deliver u n)).
Proof.
  rewrite deliver_out. constructor; [ apply boundary_cmd_known | ].
  destruct (conflict (record_pose u n)); [ | constructor ].
  unfold override.
  constructor; [ right; right; reflexivity | ].
  constructor; [ left; reflexivity | constructor ].
Qed.

(** X9.  Whatever the poses, every command the node publishes in a run is
    one of three: the cruise command (linear 2.0), the turn command
    (linear 1.0, angular 0.9), or, on the publisher of turtle 1 only, the
    stop.  So turtle 2 is never told to stop, and no command has a negative
    speed or a component other than linear x and angular z set. *)
Theorem published_commands_are_known (us : list Update) (n : Node) :
  Forall known_command (out (spin us n))
  /\ Forall (fun c => fst c = turtle2_vel_pub ->
                      linear_speed (snd c) = 2.0 \/ linear_speed (snd c) = 1.0)
            (out (spin us n)).
Proof.
  assert (K : Forall known_command (out (spin us n))).
  { revert n. induction us as [|u us IH]; intros n; [ constructor | ].
    rewrite spin_cons.
    destruct (res (deliver u n)); cbn [out];
      [ apply Forall_app; split; [ apply deliver_known | apply IH ]
      | apply deliver_known ]. }
  split; [ exact K | ].
  eapply Forall_impl; [ | exact K ].
  intros [p cmd] [E | [E | E]] P; cbn [fst snd] in *.
  - left. now rewrite E.
  - right. now rewrite E.
  - rewrite P in E. discriminate E.
Qed.

(** ** How updates compose *)

Lemma moved_idempotent (u : Update) (n : Node) : moved u (moved u n) = moved u n.
Proof. destruct u; reflexivity. Qed.

(** X10.  Delivering the same pose message a second time changes nothing
    and publishes the same commands again: the node is left as the first
    delivery left it, and the second callback publishes and ends as the
    first did. *)
Theorem redelivery_is_idempotent (u : Update) (n : Node) :
  deliver u (final (deliver u n)) = deliver u n.
Proof.
  rewrite deliver_final. rewrite !deliver_eq. cbn zeta.
  now rewrite moved_idempotent.
Qed.

(** X11.  Updates of the two turtles commute on the stored fields.  When a
    pose for turtle 1 followed by a pose for turtle 2 runs without an
    exception, and so do the two in the other order, the two runs leave the
    same node, and the second tick detects a conflict in one order exactly
    when it does in the other. *)
Theorem updates_of_two_turtles_commute (p q : Pose) (n : Node)
    (H12 : res (spin [Pose1 p; Pose2 q] n) = Ok tt)
    (H21 : res (spin [Pose2 q; Pose1 p] n) = Ok tt) :
  final (spin [Pose1 p; Pose2 q] n) = final (spin [Pose2 q; Pose1 p] n)
  /\ conflict (record_pose (Pose2 q) (final (deliver (Pose1 p) n)))
     = conflict (record_pose (Pose1 p) (final (deliver (Pose2 q) n))).
Proof.
  rewrite !spin_cons in *. rewrite !deliver_final.
  destruct (res (deliver (Pose1 p) n)); [ | discriminate H12 ].
  destruct (res (deliver (Pose2 q) n)); [ | discriminate H21 ].
  cbn [res final] in *.
  destruct (res (deliver (Pose2 q) (moved (Pose1 p) n)));
    [ | discriminate H12 ].
  destruct (res (deliver (Pose1 p) (moved (Pose2 q) n)));
    [ | discriminate H21 ].
  split; reflexivity.
Qed.

(** ** Poses in the range of float32 *)

Lemma node_in_range_moved (u : Update) (n : Node) :
  update_in_range u = true -> node_in_range n = true ->
  node_in_range (moved u n) = true.
Proof.
  unfold update_in_range, node_in_range. intros Hu Hn.
  apply andb_prop in Hn as [H1 H2].
  destruct u as [pose|pose]; cbn in *; now rewrite ?Hu, ?H1, ?H2.
Qed.

Lemma check_collision_in_range (n : Node) :
  node_in_range n = true -> res (check_collision n) = Ok tt.
Proof.
  unfold node_in_range, check_collision. intros H.
  rewrite check_collision_at_eq.
  destruct (turtle1_pose n) as [p1|], (turtle2_pose n) as [p2|];
    try reflexivity.
  apply andb_prop in H as [H1 H2].
  destruct (distance_in_range _ _ H1 H2) as [d E]. now rewrite E.
Qed.

(** X12.  On float32 poses the node never raises.  When every coordinate of
    the stored poses and of the updates is a float32 value (NaN, infinite,
    or of magnitude at most 2^128), the distance expression returns, every
    callback returns, and so does the whole run.  This is with a C library
    whose [pow(v, 2.0)] is never below zero and is finite for a base of
    magnitude 2^510 at most. *)
Theorem float32_poses_never_raise (us : list Update) (n : Node)
    (Hn : node_in_range n = true)
    (Hus : forallb update_in_range us = true) :
  res (spin us n) = Ok tt
  /\ node_in_range (final (spin us n)) = true
  /\ (forall u, update_in_range u = true -> res (deliver u n) = Ok tt)
  /\ (forall a b, pose_in_range a = true -> pose_in_range b = true ->
        exists d, distance a b = Ok d).
Proof.
  assert (Step : forall u m, update_in_range u = true ->
                 node_in_range m = true -> res (deliver u m) = Ok tt).
  { intros u m Hu Hm. rewrite deliver_res.
    now apply check_collision_in_range, node_in_range_moved. }
  assert (Run : res (spin us n) = Ok tt
                /\ node_in_range (final (spin us n)) = true).
  { revert n Hn. induction us as [|u us IH]; intros n Hn; [ now split | ].
    cbn [forallb] in Hus. apply andb_prop in Hus as [Hu Hus].
    rewrite spin_cons, (Step u n Hu Hn). cbn [res final].
    apply (IH Hus). now apply node_in_range_moved. }
  destruct Run as [R1 R2]. repeat split; try assumption.
  - intros u Hu. now apply Step.
  - intros a b Ha Hb. now apply distance_in_range.
Qed.

End WithLibm.

(** * The development at a correctly rounded C library *)

(** The three hypotheses hold of [rounded_square], so the statements that
    carry them are not vacuous. *)
Lemma rounded_square_not_negative (v : float) :
  (rounded_square v <? 0.0) = false.
Proof.
  unfold rounded_square. rewrite ltb_spec.
  change (Prim2SF 0.0) with (S754_zero false).
  apply SFltb_nonneg_zero, square_nonneg.
Qed.

Lemma leb_power_finite (v c : float) (m : positive) (E : Z) :
  Prim2SF c = S754_finite false m E ->
  (abs v <=? c) = true -> is_finite v = true.
Proof.
  intros C R. rewrite leb_spec, abs_spec, C in R. rewrite is_finite_SF.
  destruct (Prim2SF v) as [s|s| |s m' e]; try reflexivity; discriminate R.
Qed.

Lemma rounded_square_finite (v : float) :
  (abs v <=? 0x1p510) = true -> is_infinity (rounded_square v) = false.
Proof.
  intros H.
  assert (C : Prim2SF 0x1p510 = S754_finite false 4503599627370496 458)
    by (vm_compute; reflexivity).
  pose proof (leb_power_finite _ _ _ _ C H) as F.
  pose proof (leb_power_exponent _ _ _ _ C F H) as B.
  apply (SFmul_self_no_overflow _ (Prim2SF_valid v)) in B.
  unfold rounded_square. apply is_finite_not_infinity.
  rewrite is_finite_SF, mul_spec. now apply (SF_exponent_le_finite 971).
Qed.


(** ** The claims on concrete poses *)

Lemma conflict_resolution_commands_witness :
  out (avoid_collision scenario2) =
    [(turtle1_vel_pub, stop_cmd); (turtle2_vel_pub, move_cmd)]
  /\ out (check_collision rounded_square scenario2)
     = out (avoid_collision scenario2).
Proof.
  pose proof (conflict_resolution_commands rounded_square scenario2 eq_refl)
    as H.
  split; [ exact (proj1 H) | exact (proj1 (proj2 H)) ].
Defined.


(** The threshold of the node is 1.0.  At distance exactly 1.0 nothing is
    published, with any C library: the differences are 1.0 and 0.0, whose
    squares CPython returns itself.  Just below 1.0 the override is
    published. *)
Example distance_one_is_clear (libm_pow2 : float -> float) :
  distance libm_pow2 (at_xy 0.0 0.0) (at_xy 1.0 0.0) = Ok 1.0
  /\ check_collision libm_pow2
       (set_turtle2_pose (at_xy 1.0 0.0) (set_turtle1_pose (at_xy 0.0 0.0) init))
     = mkOutcome (Ok tt)
         (set_turtle2_pose (at_xy 1.0 0.0) (set_turtle1_pose (at_xy 0.0 0.0) init))
         [].
Proof. split; vm_compute; reflexivity. Qed.

Example distance_below_one_is_conflict :
  distance rounded_square (at_xy 0.0 0.0) (at_xy 0x1.fffffffffffffp-1 0.0)
    = Ok 0x1.fffffffffffffp-1
  /\ out (check_collision rounded_square
            (set_turtle2_pose (at_xy 0x1.fffffffffffffp-1 0.0)
               (set_turtle1_pose (at_xy 0.0 0.0) init)))
     = override.
Proof. split; vm_compute; reflexivity. Qed.

(** C3, as stated, fails on a margin bound: at x = 9.0 (and y inside) the
    pose is on the margin boundary, yet [move_turtle] publishes the cruise
    command, which is not the turn command. *)
Lemma turn_on_margin_bound_counterexample :
  spec_on_or_outside_margin (at_xy 9.0 5.0) = true
  /\ boundary_cmd (at_xy 9.0 5.0) = cruise_cmd
  /\ out (move_turtle "turtle1" (at_xy 9.0 5.0) init)
       = [(turtle1_vel_pub, cruise_cmd)]
  /\ cruise_cmd <> turn_cmd.
Proof.
  repeat split; try (vm_compute; reflexivity).
  intros E.
  apply (float_neq (linear_speed cruise_cmd) (linear_speed turn_cmd));
    [ reflexivity | reflexivity | now rewrite E ].
Qed.

Lemma steering_by_strict_margin_witness :
  boundary_cmd (at_xy 9.0 5.0) = cruise_cmd
  /\ boundary_cmd (at_xy 1.0 5.0) = turn_cmd.
Proof.
  split.
  - apply (proj1 (proj1 (steering_by_strict_margin (at_xy 9.0 5.0)))).
    reflexivity.
  - apply (proj2 (proj2 (proj1 (steering_by_strict_margin (at_xy 1.0 5.0))))).
    right; left; reflexivity.
Defined.

(** C4, as stated, fails: in scenario 2 the callback of turtle 1 publishes
    three commands, the first of them the command of [move_turtle] for
    turtle 1, and only then the two override commands.  With the two turtles
    at the same position it does so with any C library. *)
Lemma override_only_counterexample :
  conflict rounded_square
    (record_pose (Pose1 (at_xy 5.0 5.0))
       (set_turtle2_pose (at_xy 5.5 5.5) init)) = true
  /\ out (pose_callback_turtle1 rounded_square (at_xy 5.0 5.0)
            (set_turtle2_pose (at_xy 5.5 5.5) init))
     = [(turtle1_vel_pub, cruise_cmd);
        (turtle1_vel_pub, stop_cmd);
        (turtle2_vel_pub, move_cmd)]
  /\ List.length (out (pose_callback_turtle1 rounded_square (at_xy 5.0 5.0)
                         (set_turtle2_pose (at_xy 5.5 5.5) init))) = 3%nat
  /\ (forall libm_pow2 : float -> float,
        out (pose_callback_turtle1 libm_pow2 (at_xy 5.0 5.0)
               (set_turtle2_pose (at_xy 5.0 5.0) init))
        = [(turtle1_vel_pub, cruise_cmd);
           (turtle1_vel_pub, stop_cmd);
           (turtle2_vel_pub, move_cmd)]).
Proof. repeat split; intros; vm_compute; reflexivity. Qed.

Lemma conflict_tick_commands_witness :
  out (deliver rounded_square (Pose2 (at_xy 5.5 5.5))
         (set_turtle1_pose (at_xy 5.0 5.0) init))
  = [(turtle2_vel_pub, boundary_cmd (at_xy 5.5 5.5));
     (turtle1_vel_pub, stop_cmd);
     (turtle2_vel_pub, move_cmd)].
Proof.
  exact (proj1 (conflict_tick_commands rounded_square (Pose2 (at_xy 5.5 5.5))
                  (set_turtle1_pose (at_xy 5.0 5.0) init) eq_refl)).
Defined.

Lemma clear_tick_commands_witness :
  out (deliver rounded_square (Pose1 (at_xy 5.0 5.0))
         (set_turtle2_pose (at_xy 8.0 8.0) init))
  = [(turtle1_vel_pub, boundary_cmd (at_xy 5.0 5.0))].
Proof.
  exact (proj1 (clear_tick_commands rounded_square (Pose1 (at_xy 5.0 5.0))
                  (set_turtle2_pose (at_xy 8.0 8.0) init) eq_refl)).
Defined.

(** C5, as stated, fails: turtle 1 reports (1, 1) and then (5, 5).  Before
    the second update its stored pose is (1, 1); after it the previous
    position fields hold (5, 5), the new position, not (1, 1), with any C
    library. *)
Lemma previous_position_counterexample :
  turtle1_pose (final (pose_callback_turtle1 rounded_square
                         (at_xy 1.0 1.0) init))
    = Some (at_xy 1.0 1.0)
  /\ previous_x_turtle1
       (final (pose_callback_turtle1 rounded_square (at_xy 5.0 5.0)
                 (final (pose_callback_turtle1 rounded_square
                           (at_xy 1.0 1.0) init)))) = 5.0
  /\ previous_y_turtle1
       (final (pose_callback_turtle1 rounded_square (at_xy 5.0 5.0)
                 (final (pose_callback_turtle1 rounded_square
                           (at_xy 1.0 1.0) init)))) = 5.0
  /\ 5.0 <> x (at_xy 1.0 1.0)
  /\ (forall libm_pow2 : float -> float,
        previous_x_turtle1
          (final (pose_callback_turtle1 libm_pow2 (at_xy 5.0 5.0)
                    (final (pose_callback_turtle1 libm_pow2
                              (at_xy 1.0 1.0) init)))) = 5.0).
Proof.
  repeat split; try (intros; vm_compute; reflexivity).
  apply float_neq; reflexivity.
Qed.

(** C6, as stated, fails: [move_turtle] called for "turtle3" returns
    normally; no exception reaches the caller. *)
Lemma unknown_agent_counterexample :
  move_turtle "turtle3" (at_xy 5.0 5.0) init = mkOutcome (Ok tt) init [].
Proof. reflexivity. Qed.

Lemma unknown_name_is_ignored_witness :
  res (move_turtle "turtle3" (at_xy 5.0 5.0) init) = Ok tt
  /\ final (move_turtle "turtle3" (at_xy 5.0 5.0) init) = init
  /\ out (move_turtle "turtle3" (at_xy 5.0 5.0) init) = [].
Proof.
  apply (unknown_name_is_ignored "turtle3" (at_xy 5.0 5.0) init);
    intros E; discriminate E.
Defined.

Lemma previous_positions_do_not_interfere_witness :
  out (spin rounded_square
         [Pose1 (at_xy 5.0 5.0); Pose2 (at_xy 5.5 5.5)] init)
  = out (spin rounded_square
           [Pose1 (at_xy 5.0 5.0); Pose2 (at_xy 5.5 5.5)] init_elsewhere).
Proof.
  exact (proj1 (proj2 (previous_positions_do_not_interfere rounded_square
                         init init_elsewhere eq_refl eq_refl)
                 [Pose1 (at_xy 5.0 5.0); Pose2 (at_xy 5.5 5.5)])).
Defined.

Lemma steering_ignores_heading_witness :
  boundary_cmd (mkPose 1.0 5.0 0.0 0.0 0.0)
  = boundary_cmd (mkPose 1.0 5.0 3.0 2.0 0.5).
Proof.
  exact (proj1 (steering_ignores_heading
                  (mkPose 1.0 5.0 0.0 0.0 0.0) (mkPose 1.0 5.0 3.0 2.0 0.5)
                  eq_refl eq_refl)).
Defined.

(** ** The end-to-end scenarios of the specification *)

(** Scenario 1: turtles at (5, 5) and (8, 8) are clear of each other; each
    update publishes the cruise command for the turtle that moved. *)
Example scenario_clear :
  out (spin rounded_square
         [Pose1 (at_xy 5.0 5.0); Pose2 (at_xy 8.0 8.0)] init)
  = [(turtle1_vel_pub, cruise_cmd); (turtle2_vel_pub, cruise_cmd)].
Proof. vm_compute. reflexivity. Qed.

(** Scenario 2: turtles at (5, 5) and (5.5, 5.5) are in conflict once both
    poses are known. *)
Example scenario_conflict :
  out (spin rounded_square
         [Pose1 (at_xy 5.0 5.0); Pose2 (at_xy 5.5 5.5)] init)
  = [(turtle1_vel_pub, cruise_cmd);
     (turtle2_vel_pub, cruise_cmd);
     (turtle1_vel_pub, stop_cmd);
     (turtle2_vel_pub, move_cmd)].
Proof. vm_compute. reflexivity. Qed.

(** Scenario 3: turtle 1 at (1, 5) is inside the margin and turns. *)
Example scenario_margin :
  out (spin rounded_square
         [Pose2 (at_xy 8.0 8.0); Pose1 (at_xy 1.0 5.0)] init)
  = [(turtle2_vel_pub, cruise_cmd); (turtle1_vel_pub, turn_cmd)].
Proof. vm_compute. reflexivity. Qed.

(** A NaN coordinate fails all four comparisons and gets the cruise
    command; the distance to it is NaN, which is not below the threshold. *)
Example nan_pose_cruises :
  pose_callback_turtle1 rounded_square (at_xy nan 5.0)
    (set_turtle2_pose (at_xy 5.0 5.0) init)
  = mkOutcome (Ok tt)
      (moved (Pose1 (at_xy nan 5.0)) (set_turtle2_pose (at_xy 5.0 5.0) init))
      [(turtle1_vel_pub, cruise_cmd)].
Proof. vm_compute. reflexivity. Qed.

(** A square that overflows raises in [check_collision], after the command
    of [move_turtle] was published. *)
Example overflow_raises :
  pose_callback_turtle1 rounded_square (at_xy 0x1p600 5.0)
    (set_turtle2_pose (at_xy 5.0 5.0) init)
  = mkOutcome (Raise OverflowError)
      (moved (Pose1 (at_xy 0x1p600 5.0))
         (set_turtle2_pose (at_xy 5.0 5.0) init))
      [(turtle1_vel_pub, turn_cmd)].
Proof. vm_compute. reflexivity. Qed.

(** ** The further properties on concrete poses *)

Lemma steering_of_nonfinite_pose_witness :
  boundary_cmd (at_xy nan nan) = cruise_cmd
  /\ boundary_cmd (at_xy 5.0 neg_infinity) = turn_cmd.
Proof.
  split.
  - apply (proj1 (proj2 (proj2 (steering_of_nonfinite_pose (at_xy nan nan)))));
      reflexivity.
  - apply (proj2 (proj2 (proj2 (steering_of_nonfinite_pose
                                   (at_xy 5.0 neg_infinity))))).
    right; reflexivity.
Defined.

Lemma distance_overflows_or_is_not_negative_witness :
  distance rounded_square (at_xy 5.0 5.0) (at_xy 5.5 5.5)
    = Raise OverflowError
  \/ exists d, distance rounded_square (at_xy 5.0 5.0) (at_xy 5.5 5.5) = Ok d
               /\ (d <? 0.0) = false
               /\ SF_nonneg (Prim2SF d) = true.
Proof.
  exact (distance_overflows_or_is_not_negative
           rounded_square rounded_square_not_negative
           (at_xy 5.0 5.0) (at_xy 5.5 5.5)).
Defined.

Lemma detection_is_symmetric_witness :
  out (check_collision_at rounded_square 1.0
         (set_turtle2_pose (at_xy 5.0 5.0)
            (set_turtle1_pose (at_xy 5.5 5.5) init)))
  = out (check_collision_at rounded_square 1.0 scenario2).
Proof.
  exact (proj1 (proj2
    (proj2 (detection_is_symmetric rounded_square
              (at_xy 5.0 5.0) (at_xy 5.5 5.5) 1.0 scenario2
              (set_turtle2_pose (at_xy 5.0 5.0)
                 (set_turtle1_pose (at_xy 5.5 5.5) init)))
       eq_refl eq_refl eq_refl eq_refl))).
Defined.

Lemma coincident_poses_conflict_witness :
  distance rounded_square (at_xy 3.0 3.0) (mkPose 3.0 3.0 1.5 0.0 0.0)
    = Ok 0.0
  /\ check_collision rounded_square
       (set_turtle2_pose (mkPose 3.0 3.0 1.5 0.0 0.0)
          (set_turtle1_pose (at_xy 3.0 3.0) init))
     = mkOutcome (Ok tt)
         (set_turtle2_pose (mkPose 3.0 3.0 1.5 0.0 0.0)
            (set_turtle1_pose (at_xy 3.0 3.0) init))
         override.
Proof.
  apply (coincident_poses_conflict rounded_square
           (set_turtle2_pose (mkPose 3.0 3.0 1.5 0.0 0.0)
              (set_turtle1_pose (at_xy 3.0 3.0) init))
           (at_xy 3.0 3.0) (mkPose 3.0 3.0 1.5 0.0 0.0));
    reflexivity.
Defined.

Lemma nonfinite_pose_never_conflicts_witness :
  conflict_at rounded_square 1.0
    (set_turtle2_pose (at_xy 5.0 5.0) (set_turtle1_pose (at_xy nan 5.0) init))
    = false
  /\ out (check_collision_at rounded_square 1.0
            (set_turtle2_pose (at_xy 5.0 5.0)
               (set_turtle1_pose (at_xy nan 5.0) init))) = [].
Proof.
  apply (nonfinite_pose_never_conflicts rounded_square 1.0
           (set_turtle2_pose (at_xy 5.0 5.0)
              (set_turtle1_pose (at_xy nan 5.0) init))
           (at_xy nan 5.0) (at_xy 5.0 5.0));
    reflexivity.
Defined.

Lemma callback_failure_is_overflow_witness :
  res (deliver rounded_square (Pose1 (at_xy 0x1p600 5.0))
         (set_turtle2_pose (at_xy 5.0 5.0) init)) = Ok tt
  \/ (res (deliver rounded_square (Pose1 (at_xy 0x1p600 5.0))
             (set_turtle2_pose (at_xy 5.0 5.0) init)) = Raise OverflowError
      /\ conflict rounded_square
           (record_pose (Pose1 (at_xy 0x1p600 5.0))
              (set_turtle2_pose (at_xy 5.0 5.0) init)) = false
      /\ out (deliver rounded_square (Pose1 (at_xy 0x1p600 5.0))
                (set_turtle2_pose (at_xy 5.0 5.0) init))
         = [(update_publisher (Pose1 (at_xy 0x1p600 5.0)),
             boundary_cmd (update_pose (Pose1 (at_xy 0x1p600 5.0))))]).
Proof.
  exact (proj1 (callback_failure_is_overflow
                  rounded_square rounded_square_not_negative
                  (Pose1 (at_xy 0x1p600 5.0))
                  (set_turtle2_pose (at_xy 5.0 5.0) init))).
Defined.

Lemma stored_pose_is_latest_update_witness :
  pose_of turtle1_vel_pub
    (final (spin rounded_square
              [Pose1 (at_xy 1.0 1.0); Pose2 (at_xy 8.0 8.0);
               Pose1 (at_xy 5.0 5.0)] init))
  = Some (at_xy 5.0 5.0).
Proof.
  exact (stored_pose_is_latest_update rounded_square turtle1_vel_pub
           [Pose1 (at_xy 1.0 1.0); Pose2 (at_xy 8.0 8.0); Pose1 (at_xy 5.0 5.0)]
           init eq_refl).
Defined.

Lemma updates_of_two_turtles_commute_witness :
  final (spin rounded_square
           [Pose1 (at_xy 5.0 5.0); Pose2 (at_xy 5.5 5.5)] init)
  = final (spin rounded_square
             [Pose2 (at_xy 5.5 5.5); Pose1 (at_xy 5.0 5.0)] init).
Proof.
  exact (proj1 (updates_of_two_turtles_commute rounded_square
                  (at_xy 5.0 5.0) (at_xy 5.5 5.5) init eq_refl eq_refl)).
Defined.

Lemma float32_poses_never_raise_witness :
  res (spin rounded_square
         [Pose1 (at_xy 0x1.fffffep127 (-0x1.fffffep127));
          Pose2 (at_xy (-0x1.fffffep127) 0x1.fffffep127);
          Pose1 (at_xy infinity nan)] init) = Ok tt.
Proof.
  exact (proj1 (float32_poses_never_raise
                  rounded_square rounded_square_not_negative
                  rounded_square_finite
                  [Pose1 (at_xy 0x1.fffffep127 (-0x1.fffffep127));
                   Pose2 (at_xy (-0x1.fffffep127) 0x1.fffffep127);
                   Pose1 (at_xy infinity nan)] init eq_refl eq_refl)).
Defined.
